(** * Morepath: routing, dispatch and link generation

    A shallow embedding of [morepath/core.py], [morepath/request.py]
    and [morepath/security.py] together with the properties stated
    about them.

    Conventions.  Python text is a [string]; a value that may be [None]
    is an [option]; a call that may raise returns a [Res]; a [while]
    loop whose termination is not structural takes fuel and returns
    [None] when the fuel runs out.  The generic functions of
    [morepath.generic] are dispatched on a lookup; they are the
    variables of the sections below, indexed by the lookup they are
    called with. *)

From Stdlib Require Import ZArith Lia Bool Ascii String List.
From Stdlib Require Import DecimalString DecimalZ DecimalPos.
From stdpp Require Import base decidable option list gmap strings.

Local Open Scope string_scope.

(** ** Python exceptions and results *)

Inductive Exn : Type :=
| LinkError (msg : string)
| HTTPForbidden
| HTTPMethodNotAllowed
| TypeError (msg : string)
| AttributeError (msg : string)
| ViewError (msg : string).

Inductive Res (A : Type) : Type :=
| Ok (a : A)
| Raise (e : Exn).
Arguments Ok {A} a.
Arguments Raise {A} e.

(** ** Python string helpers *)

(** [sep.join(l)] *)
Fixpoint join (sep : string) (l : list string) : string :=
  match l with
  | [] => ""
  | [x] => x
  | x :: rest => x +:+ sep +:+ join sep rest
  end.

(** [s.lstrip('/')] *)
Fixpoint lstrip_slash (s : string) : string :=
  match s with
  | String "/" s' => lstrip_slash s'
  | _ => s
  end.

(** [s.rstrip('/')] *)
Fixpoint rstrip_slash (s : string) : string :=
  match s with
  | "" => ""
  | String c s' =>
      match rstrip_slash s' with
      | "" => if Ascii.eqb c "/" then "" else String c ""
      | r => String c r
      end
  end.

(** [s.strip('/')] *)
Definition strip_slash (s : string) : string :=
  rstrip_slash (lstrip_slash s).

(** [s.replace(old, new)] for a non-empty [old]: occurrences are
    replaced from left to right and do not overlap.  [skip] counts the
    characters of a matched occurrence that are still to be dropped. *)
Fixpoint replace_from (old new : string) (skip : nat) (s : string) : string :=
  match s with
  | "" => ""
  | String c s' =>
      match skip with
      | S k => replace_from old new k s'
      | O =>
          if String.prefix old s
          then new +:+ replace_from old new (String.length old - 1) s'
          else String c (replace_from old new 0 s')
      end
  end.

Definition replace (old new s : string) : string := replace_from old new 0 s.

(** [pat in s] *)
Fixpoint contains (pat s : string) : bool :=
  String.prefix pat s ||
  match s with
  | "" => false
  | String _ s' => contains pat s'
  end.

(** [s.count(c)] for a single character. *)
Fixpoint count_char (c : ascii) (s : string) : nat :=
  match s with
  | "" => 0
  | String x s' => (if Ascii.eqb x c then 1 else 0) + count_char c s'
  end.

(** ** Converters ([core.py], lines 168-209) *)

Module Converter.

Local Open Scope Z_scope.

(** Modelled from the spec: the [Converter] class of [converter.py],
    which is not among the sources.  A converter pairs
    [decode : string -> value], which may fail, with
    [encode : value -> string]. *)
Record Converter (V : Type) : Type :=
  MkConverter { decode : string -> option V; encode : V -> string }.
Arguments MkConverter {V} decode encode.
Arguments decode {V} c s.
Arguments encode {V} c v.

(** *** [int] and [str] on integers *)

(** [str(n)]: decimal digits, a leading [-] for negative numbers. *)
Definition py_str (n : Z) : string := NilZero.string_of_int (Z.to_int n).

Definition is_space (c : ascii) : bool :=
  match c with
  | " "%char | "009"%char | "010"%char | "011"%char | "012"%char
  | "013"%char => true
  | _ => false
  end.

Fixpoint lstrip (s : string) : string :=
  match s with
  | String c s' => if is_space c then lstrip s' else s
  | "" => ""
  end.

Fixpoint rstrip (s : string) : string :=
  match s with
  | "" => ""
  | String c s' =>
      match rstrip s' with
      | "" => if is_space c then "" else String c ""
      | r => String c r
      end
  end.

(** [s.strip()] *)
Definition strip (s : string) : string := rstrip (lstrip s).

(** [int(s)]: surrounding whitespace is dropped, then an optional sign
    and one or more decimal digits are read; anything else is a
    [ValueError] ([None]).  The underscores that later versions of
    Python accept between digits are not read. *)
Definition py_int (s : string) : option Z :=
  match strip s with
  | String "+" digits =>
      match NilZero.uint_of_string digits with
      | Some u => Some (Z.of_uint u)
      | None => None
      end
  | t =>
      match NilZero.int_of_string t with
      | Some d => Some (Z.of_int d)
      | None => None
      end
  end.

(** No character of [s] is whitespace or a plus sign. *)
Fixpoint no_space_or_plus (s : string) : bool :=
  match s with
  | "" => true
  | String c s' =>
      negb (is_space c) && negb (Ascii.eqb c "+") && no_space_or_plus s'
  end.

(** [Converter(int)]: the encoder is left out and defaults to [str]. *)
Definition int_converter : Converter Z := MkConverter py_int py_str.

(** [IDENTITY_CONVERTER], used by [unicode_converter] and
    [str_converter]. *)
Definition IDENTITY_CONVERTER : Converter string :=
  MkConverter (fun s => Some s) (fun s => s).

Definition unicode_converter : Converter string := IDENTITY_CONVERTER.
Definition str_converter : Converter string := IDENTITY_CONVERTER.

(** *** The calendar *)

(** [datetime.date]: the constructor accepts the dates of the
    proleptic Gregorian calendar of the years 1 to 9999. *)
Record date : Type := MkDate { year : Z; month : Z; day : Z }.

(** A naive [datetime.datetime]. *)
Record datetime : Type :=
  MkDatetime { dt_year : Z; dt_month : Z; dt_day : Z;
               hour : Z; minute : Z; second : Z; microsecond : Z }.

(** [time.struct_time], the fields the converters depend on. *)
Record struct_time : Type :=
  MkTm { tm_year : Z; tm_mon : Z; tm_mday : Z;
         tm_hour : Z; tm_min : Z; tm_sec : Z }.

Definition is_leap (y : Z) : bool :=
  (y mod 4 =? 0) && (negb (y mod 100 =? 0) || (y mod 400 =? 0)).

Definition days_in_year (y : Z) : Z := if is_leap y then 366 else 365.

Definition days_in_month (y m : Z) : Z :=
  if m =? 2 then (if is_leap y then 29 else 28)
  else if (m =? 4) || (m =? 6) || (m =? 9) || (m =? 11) then 30
  else 31.

(** Days of the year before the first of month [m]. *)
Definition days_before_month (y m : Z) : Z :=
  let feb := if is_leap y then 29 else 28 in
  if m <=? 1 then 0
  else if m =? 2 then 31
  else if m =? 3 then 31 + feb
  else if m =? 4 then 62 + feb
  else if m =? 5 then 92 + feb
  else if m =? 6 then 123 + feb
  else if m =? 7 then 153 + feb
  else if m =? 8 then 184 + feb
  else if m =? 9 then 215 + feb
  else if m =? 10 then 245 + feb
  else if m =? 11 then 276 + feb
  else 306 + feb.

(** Days before the first of January of year [y], counted from
    0001-01-01. *)
Definition days_before_year (y : Z) : Z :=
  let p := y - 1 in p * 365 + p / 4 - p / 100 + p / 400.

Definition valid_ymd (y m d : Z) : bool :=
  (1 <=? y) && (y <=? 9999) && (1 <=? m) && (m <=? 12) &&
  (1 <=? d) && (d <=? days_in_month y m).

Definition valid_date (d : date) : bool :=
  valid_ymd (year d) (month d) (day d).

Definition valid_datetime (d : datetime) : bool :=
  valid_ymd (dt_year d) (dt_month d) (dt_day d) &&
  (0 <=? hour d) && (hour d <=? 23) &&
  (0 <=? minute d) && (minute d <=? 59) &&
  (0 <=? second d) && (second d <=? 59) &&
  (0 <=? microsecond d) && (microsecond d <=? 999999).

(** The day number of a date, 0001-01-01 being day 1. *)
Definition ymd2ord (y m d : Z) : Z :=
  days_before_year y + days_before_month y m + d.

(** The year a day falls in, searched upwards from year [y]; [n] is
    the number of days since the first of January of [y]. *)
Fixpoint find_year (fuel : nat) (y n : Z) : Z * Z :=
  match fuel with
  | O => (y, n)
  | S fuel' =>
      if n <? days_in_year y then (y, n)
      else find_year fuel' (y + 1) (n - days_in_year y)
  end.

(** The month a day of year [y] falls in, searched upwards from month
    [m]; [n] is the number of days since the first of [m]. *)
Fixpoint find_month (fuel : nat) (y m n : Z) : Z * Z :=
  match fuel with
  | O => (m, n)
  | S fuel' =>
      if n <? days_in_month y m then (m, n)
      else find_month fuel' y (m + 1) (n - days_in_month y m)
  end.

(** The date of a day number; [None] outside the years 1 to 9999. *)
Definition ord2ymd (n : Z) : option (Z * Z * Z) :=
  if n <? 1 then None
  else
    let '(y, r) := find_year (Z.to_nat 9999) 1 (n - 1) in
    if 9999 <? y then None
    else
      let '(m, r') := find_month 11 y 1 r in
      Some (y, m, r' + 1).

(** *** [strftime] and [strptime] *)

Definition digit_char (n : Z) : ascii := ascii_of_nat (48 + Z.to_nat n).

Definition digit_val (c : ascii) : option Z :=
  let n := Z.of_nat (nat_of_ascii c) in
  if (48 <=? n) && (n <=? 57) then Some (n - 48) else None.

(** [%m], [%d], [%H], [%M], [%S]: two digits, zero-padded. *)
Definition pad2 (n : Z) : string :=
  String (digit_char (n / 10)) (String (digit_char (n mod 10)) "").

(** Four digits, zero-padded. *)
Definition pad4 (n : Z) : string :=
  String (digit_char (n / 1000))
    (String (digit_char (n / 100 mod 10)) (pad2 (n mod 100))).

(** The year in decimal without padding, for the years 1 to 9999. *)
Definition unpadded (n : Z) : string :=
  if n <? 10 then String (digit_char n) ""
  else if n <? 100 then pad2 n
  else if n <? 1000 then String (digit_char (n / 100)) (pad2 (n mod 100))
  else pad4 n.

(** [%Y]: the year with century.  The C library decides whether a year
    below 1000 is padded with zeros to four digits. *)
Definition format_year (zero_pad_year : bool) (n : Z) : string :=
  if zero_pad_year then pad4 n else unpadded n.

(** [d.strftime('%Y%m%d')] *)
Definition strftime_date (zero_pad_year : bool) (d : date) : string :=
  format_year zero_pad_year (year d) +:+ pad2 (month d) +:+ pad2 (day d).

(** [d.strftime('%Y%m%dT%H%M%S')] *)
Definition strftime_datetime (zero_pad_year : bool) (d : datetime) : string :=
  format_year zero_pad_year (dt_year d) +:+ pad2 (dt_month d) +:+
  pad2 (dt_day d) +:+ "T" +:+
  pad2 (hour d) +:+ pad2 (minute d) +:+ pad2 (second d).

(** [strptime] turns a format into a regular expression and takes its
    first match.  A piece of such an expression is a function from the
    input to its matches with the text left over, the preferred match
    first; alternatives are tried in the order they are written. *)
Definition Matcher (A : Type) : Type := string -> list (A * string).

Definition in_range (lo hi x : Z) : bool := (lo <=? x) && (x <=? hi).

(** A digit between [lo] and [hi]. *)
Definition one_digit (lo hi : Z) : Matcher Z := fun s =>
  match s with
  | String a r =>
      match digit_val a with
      | Some x => if in_range lo hi x then [(x, r)] else []
      | None => []
      end
  | "" => []
  end.

(** A digit between [lo1] and [hi1], then one between [lo2] and [hi2]. *)
Definition two_digits (lo1 hi1 lo2 hi2 : Z) : Matcher Z := fun s =>
  flat_map (fun '(x, r) =>
    map (fun '(y, r') => (10 * x + y, r')) (one_digit lo2 hi2 r))
    (one_digit lo1 hi1 s).

(** A space, then a digit between [lo] and [hi]. *)
Definition space_digit (lo hi : Z) : Matcher Z := fun s =>
  match s with
  | String " " r => one_digit lo hi r
  | _ => []
  end.

(** [%Y] is [\d\d\d\d]. *)
Definition re_Y : Matcher Z := fun s =>
  flat_map (fun '(hi, r) =>
    map (fun '(lo, r') => (100 * hi + lo, r')) (two_digits 0 9 0 9 r))
    (two_digits 0 9 0 9 s).

(** [%m] is [1[0-2]|0[1-9]|[1-9]]. *)
Definition re_m : Matcher Z := fun s =>
  (two_digits 1 1 0 2 s ++ two_digits 0 0 1 9 s ++ one_digit 1 9 s)%list.

(** [%d] is [3[0-1]|[1-2]\d|0[1-9]|[1-9]| [1-9]]. *)
Definition re_d : Matcher Z := fun s =>
  (two_digits 3 3 0 1 s ++ two_digits 1 2 0 9 s ++ two_digits 0 0 1 9 s ++
   one_digit 1 9 s ++ space_digit 1 9 s)%list.

(** [%H] is [2[0-3]|[0-1]\d|\d]. *)
Definition re_H : Matcher Z := fun s =>
  (two_digits 2 2 0 3 s ++ two_digits 0 1 0 9 s ++ one_digit 0 9 s)%list.

(** [%M] is [[0-5]\d|\d]. *)
Definition re_M : Matcher Z := fun s =>
  (two_digits 0 5 0 9 s ++ one_digit 0 9 s)%list.

(** [%S] is [6[0-1]|[0-5]\d|\d]. *)
Definition re_S : Matcher Z := fun s =>
  (two_digits 6 6 0 1 s ++ two_digits 0 5 0 9 s ++ one_digit 0 9 s)%list.

(** The letter [T] of the format; the expression is compiled with
    [IGNORECASE]. *)
Definition re_T : Matcher unit := fun s =>
  match s with
  | String "T" r | String "t" r => [(tt, r)]
  | _ => []
  end.

Definition then_ {A B : Type} (p : Matcher A) (q : A -> Matcher B)
  : Matcher B :=
  fun s => flat_map (fun '(a, r) => q a r) (p s).

(** The first match must reach the end of the text, and the day must
    exist in its month. *)
Definition finish (ms : list (struct_time * string)) : option struct_time :=
  match ms with
  | [] => None
  | (tm, rest) :: _ =>
      match rest with
      | "" =>
          if valid_ymd (tm_year tm) (tm_mon tm) (tm_mday tm)
          then Some tm else None
      | _ => None
      end
  end.

(** [strptime(s, '%Y%m%d')]; [None] is a [ValueError]. *)
Definition strptime_date (s : string) : option struct_time :=
  finish
    (then_ re_Y (fun y => then_ re_m (fun m => then_ re_d (fun d r =>
       [(MkTm y m d 0 0 0, r)]))) s).

(** [strptime(s, '%Y%m%dT%H%M%S')] *)
Definition strptime_datetime (s : string) : option struct_time :=
  finish
    (then_ re_Y (fun y => then_ re_m (fun m => then_ re_d (fun d =>
     then_ re_T (fun _ => then_ re_H (fun h => then_ re_M (fun mi =>
     then_ re_S (fun sec r => [(MkTm y m d h mi sec, r)]))))))) s).

(** *** Local time *)

Section LocalTime.

(** Whether [strftime] pads the year, as above. *)
Variable zero_pad_year : bool.

(** The local time zone: seconds east of UTC.  The zone is taken to
    have one offset throughout, without daylight saving. *)
Variable utcoffset : Z.

(** Day number of 1970-01-01. *)
Definition epoch_ord : Z := 719163.

(** [mktime(tm)]: seconds since the epoch of a local time.  The result
    is a float in Python, exact for all the times of the calendar. *)
Definition mktime (tm : struct_time) : Z :=
  (ymd2ord (tm_year tm) (tm_mon tm) (tm_mday tm) - epoch_ord) * 86400 +
  tm_hour tm * 3600 + tm_min tm * 60 + tm_sec tm - utcoffset.

(** [localtime(t)] for a whole number of seconds [t]; [None] when the
    year is out of range. *)
Definition localtime (t : Z) : option struct_time :=
  let l := t + utcoffset in
  let secs := l mod 86400 in
  match ord2ymd (l / 86400 + epoch_ord) with
  | Some (y, m, d) =>
      Some (MkTm y m d (secs / 3600) (secs mod 3600 / 60) (secs mod 60))
  | None => None
  end.

(** [date.fromtimestamp(t)] *)
Definition date_fromtimestamp (t : Z) : option date :=
  match localtime t with
  | Some tm => Some (MkDate (tm_year tm) (tm_mon tm) (tm_mday tm))
  | None => None
  end.

(** Whether [datetime.fromtimestamp] also takes the local time 24
    hours before [t], which it does from Python 3.6 on to tell the two
    times of a fold apart.  That time has to be in the years 1 to 9999
    too; with one offset throughout no fold is found. *)
Variable probes_fold : bool.

(** [datetime.fromtimestamp(t)]: [t] has no fraction, so the
    microsecond is 0.  [None] is a [ValueError]. *)
Definition datetime_fromtimestamp (t : Z) : option datetime :=
  match localtime t with
  | Some tm =>
      let result :=
        Some (MkDatetime (tm_year tm) (tm_mon tm) (tm_mday tm)
                (tm_hour tm) (tm_min tm) (tm_sec tm) 0) in
      if probes_fold
      then match localtime (t - 86400) with
           | Some _ => result
           | None => None
           end
      else result
  | None => None
  end.

(** *** The converters of [core.py] *)

Definition date_decode (s : string) : option date :=
  match strptime_date s with
  | Some tm => date_fromtimestamp (mktime tm)
  | None => None
  end.

Definition date_encode (d : date) : string :=
  strftime_date zero_pad_year d.

Definition date_converter : Converter date :=
  MkConverter date_decode date_encode.

Definition datetime_decode (s : string) : option datetime :=
  match strptime_datetime s with
  | Some tm => datetime_fromtimestamp (mktime tm)
  | None => None
  end.

Definition datetime_encode (d : datetime) : string :=
  strftime_datetime zero_pad_year d.

Definition datetime_converter : Converter datetime :=
  MkConverter datetime_decode datetime_encode.

End LocalTime.

End Converter.

(** ** URL quoting ([urllib]) and [fixed_urlencode] ([request.py]) *)

Section Quote.

(** Whether [~] is among the characters [quote] never escapes: it is
    from Python 3.7 on, and was not before (Python issue 16285). *)
Variable tilde_always_safe : bool.

Definition is_alnum (c : ascii) : bool :=
  let n := nat_of_ascii c in
  ((48 <=? n) && (n <=? 57) || (65 <=? n) && (n <=? 90) ||
   (97 <=? n) && (n <=? 122))%nat.

(** The characters of [string.ascii_letters], [string.digits] and
    ["_.-"], and [~] in later versions. *)
Definition always_safe (c : ascii) : bool :=
  is_alnum c || Ascii.eqb c "_" || Ascii.eqb c "." || Ascii.eqb c "-" ||
  (tilde_always_safe && Ascii.eqb c "~").

Fixpoint char_in (c : ascii) (s : string) : bool :=
  match s with
  | "" => false
  | String x s' => Ascii.eqb x c || char_in c s'
  end.

Definition hex_digit (n : nat) : ascii :=
  if (n <? 10)%nat then ascii_of_nat (48 + n) else ascii_of_nat (55 + n).

(** ['%%%02X' %% byte] *)
Definition percent_encode (c : ascii) : string :=
  let n := nat_of_ascii c in
  String "%" (String (hex_digit (n / 16)) (String (hex_digit (n mod 16)) "")).

(** [quote(s, safe)] on the UTF-8 bytes of [s] *)
Fixpoint quote (s : string) (safe : string) : string :=
  match s with
  | "" => ""
  | String c s' =>
      (if always_safe c || char_in c safe then String c ""
       else percent_encode c) +:+ quote s' safe
  end.

(** [quote_plus(s)]: a space becomes [+], the rest is quoted with no
    further safe character. *)
Fixpoint quote_plus (s : string) : string :=
  match s with
  | "" => ""
  | String c s' =>
      (if Ascii.eqb c " " then "+"
       else if always_safe c then String c ""
       else percent_encode c) +:+ quote_plus s'
  end.

(** [urlencode(query, doseq=True)] for a query whose values are
    lists: one [key=value] pair for each value, joined with [&]. *)
Definition urlencode (query : list (string * list string)) : string :=
  join "&"
    (flat_map (fun '(k, v) =>
       map (fun elt => quote_plus k +:+ "=" +:+ quote_plus elt) v) query).

(** [fixed_urlencode(s, True)] *)
Definition fixed_urlencode (s : list (string * list string)) : string :=
  replace "%7E" "~" (urlencode s).

(** [Request._encode_link], given the value of [self.link_prefix()].
    Text is held as its UTF-8 bytes, so [encode('utf-8')] leaves it as
    it is. *)
Definition encode_link_parts (path name : string) : list string :=
  ((if String.eqb path "" then [] else [quote path "/~"]) ++
   (if String.eqb name "" then [] else [name]))%list.

Definition encode_link_query (parameters : list (string * list string))
  : string :=
  match parameters with
  | [] => ""
  | _ => "?" +:+ fixed_urlencode parameters
  end.

Definition _encode_link (link_prefix path name : string)
    (parameters : list (string * list string)) : string :=
  link_prefix +:+ "/" +:+ join "/" (encode_link_parts path name) +:+
  encode_link_query parameters.

End Quote.

(** ** Applications, lookups and objects *)

Definition Class := string.

(** [app.lookup]: the handle of the registry generic functions are
    dispatched on. *)
Definition RegLookup := string.

(** An application instance: its class, its lookup and the application
    it is mounted in ([app.parent], [None] at the root).  [app_id]
    stands for the identity of the Python object. *)
#[warnings="-register-all"]
Inductive App : Type :=
  MkApp { app_id : nat;
          app_class : Class;
          app_lookup : RegLookup;
          parent : option App }.

(** URL parameters: a [dict] from names to lists of values. *)
Abbreviation Params := (gmap string (list string)).

(** The objects views and links are made for: model instances and
    mounted applications. *)
Inductive Obj : Type :=
| Model (cls : Class) (state : string)
| Mounted (a : App).

Definition class_of (o : Obj) : Class :=
  match o with
  | Model c _ => c
  | Mounted a => app_class a
  end.

(** Equality and countability of applications, for the [seen] set. *)
Fixpoint app_chain (a : App) : list (nat * Class * RegLookup) :=
  (app_id a, app_class a, app_lookup a) ::
  match a with
  | MkApp _ _ _ (Some p) => app_chain p
  | MkApp _ _ _ None => []
  end.

Fixpoint app_of_chain (l : list (nat * Class * RegLookup)) : option App :=
  match l with
  | [] => None
  | (i, c, k) :: rest => Some (MkApp i c k (app_of_chain rest))
  end.

Lemma app_of_chain_app_chain (a : App) : app_of_chain (app_chain a) = Some a.
Proof.
  revert a. fix IH 1. intros [i c k [p|]]; simpl.
  - now rewrite (IH p).
  - reflexivity.
Qed.

#[global] Instance App_eq_dec : EqDecision App.
Proof.
  intros a b. destruct (decide (app_chain a = app_chain b)) as [E|N].
  - left. apply (f_equal app_of_chain) in E.
    rewrite !app_of_chain_app_chain in E. congruence.
  - right. congruence.
Defined.

#[global] Instance App_countable : Countable App :=
  inj_countable app_chain app_of_chain app_of_chain_app_chain.

#[global] Instance Obj_eq_dec : EqDecision Obj.
Proof. solve_decision. Defined.

(** ** Requests, responses and views *)

Inductive Identity : Type :=
| NO_IDENTITY
| MkIdentity (userid : string).

Definition Permission := string.

Record Response : Type :=
  MkResponse { body : string;
               content_type : string;
               headers : list (string * string) }.

(** What a view function returns: a response of its own, or content
    that is still to be rendered. *)
Inductive Content : Type :=
| ContentResponse (r : Response)
| ContentValue (v : string).

(** The state of a request.  [implicit] is the implicit lookup of
    [reg] that [app.set_implicit()] sets; it belongs to the process and
    is carried along here with the state that view functions can
    change. *)
Record Request : Type :=
  MkRequest { req_app : App;
              req_lookup : RegLookup;
              unconsumed : list string;
              view_name : string;
              method : string;
              GET : list (string * string);
              _after : list (Response -> Response);
              _link_prefix_cache : gmap Class string;
              identity_cache : option Identity;
              implicit : option RegLookup }.

Definition set_app (r : Request) (a : App) : Request :=
  MkRequest a (req_lookup r) (unconsumed r) (view_name r) (method r) (GET r)
    (_after r) (_link_prefix_cache r) (identity_cache r) (implicit r).

Definition set_lookup (r : Request) (k : RegLookup) : Request :=
  MkRequest (req_app r) k (unconsumed r) (view_name r) (method r) (GET r)
    (_after r) (_link_prefix_cache r) (identity_cache r) (implicit r).

Definition set_unconsumed (r : Request) (stack : list string) : Request :=
  MkRequest (req_app r) (req_lookup r) stack (view_name r) (method r) (GET r)
    (_after r) (_link_prefix_cache r) (identity_cache r) (implicit r).

Definition set_link_prefix_cache (r : Request) (c : gmap Class string)
  : Request :=
  MkRequest (req_app r) (req_lookup r) (unconsumed r) (view_name r)
    (method r) (GET r) (_after r) c (identity_cache r) (implicit r).

Definition set_identity_cache (r : Request) (i : Identity) : Request :=
  MkRequest (req_app r) (req_lookup r) (unconsumed r) (view_name r)
    (method r) (GET r) (_after r) (_link_prefix_cache r) (Some i)
    (implicit r).

(** [app.set_implicit()] *)
Definition set_implicit (a : App) (r : Request) : Request :=
  MkRequest (req_app r) (req_lookup r) (unconsumed r) (view_name r)
    (method r) (GET r) (_after r) (_link_prefix_cache r) (identity_cache r)
    (Some (app_lookup a)).

(** A [View] instance, with the attributes [core.py] and
    [request.py] read.  The class is in [view.py], which is not among
    the sources: what calling the instance, [view(request, obj)], does
    is the field [call_view].  A view function may change the request
    and may raise. *)
Record View : Type :=
  MkView { func : Obj -> Request -> Request * Res Content;
           call_view : Request -> Obj -> Request * Res Content;
           render : option (Content -> Request -> Response);
           permission : option Permission;
           internal : bool }.

(** A function that is not a [View], called as [view(request, obj)]:
    its name and what calling it does. *)
Record Callable : Type :=
  MkCallable { func_name : string;
               call : Request -> Obj -> Request * Res (option Response) }.

(** What [generic.view.component] returns. *)
Inductive Component : Type :=
| CNone
| CView (v : View)
| CFunc (f : Callable).

(** The predicates of [generic.view] and their fallbacks ([core.py],
    lines 134-165). *)
Definition obj_predicate (obj : Obj) : Class := class_of obj.

Definition obj_not_found : Callable :=
  MkCallable "obj_not_found" (fun self request => (self, Ok None)).

Definition name_predicate (request : Request) : string := view_name request.

Definition name_not_found : Callable :=
  MkCallable "name_not_found" (fun self request => (self, Ok None)).

Definition request_method_predicate (request : Request) : string :=
  method request.

Definition method_not_allowed : Callable :=
  MkCallable "method_not_allowed"
    (fun self request => (self, Raise HTTPMethodNotAllowed)).

(** [Request.run_after] *)
Definition run_after (self : Request) (response : Response) : Response :=
  fold_left (fun resp after => after resp) (_after self) response.

(** ** Dispatch of [generic.view] *)

Definition Key := string.

Inductive IndexKind : Type := ClassIndex | KeyIndex.

(** A predicate as [App.predicate] declares it: its name, default and
    index, the predicate it comes after, the key it takes from the
    call, and its fallback. *)
Record Predicate : Type :=
  MkPredicate { pred_name : string;
                pred_default : option Key;
                pred_index : IndexKind;
                pred_after : option string;
                get_key : Request -> Obj -> Key;
                fallback : Callable }.

Definition model_axis : Predicate :=
  MkPredicate "model" None ClassIndex None
    (fun _ obj => obj_predicate obj) obj_not_found.

Definition name_axis : Predicate :=
  MkPredicate "name" (Some "") KeyIndex (Some "model")
    (fun request _ => name_predicate request) name_not_found.

Definition request_method_axis : Predicate :=
  MkPredicate "request_method" (Some "GET") KeyIndex (Some "name")
    (fun request _ => request_method_predicate request) method_not_allowed.

(** Modelled from the spec: the ordering of predicates by their
    declared [after] (done by [reg], which is not among the sources).
    A predicate is placed once the one it comes after is placed. *)
Fixpoint sort_predicates (fuel : nat) (todo placed : list Predicate)
  : list Predicate :=
  match fuel with
  | O => placed
  | S fuel' =>
      let ready p :=
        match pred_after p with
        | None => true
        | Some n => existsb (fun q => String.eqb (pred_name q) n) placed
        end in
      match filter (fun p => ready p = true) todo with
      | [] => placed
      | rs =>
          sort_predicates fuel' (filter (fun p => ready p = false) todo)
            (placed ++ rs)%list
      end
  end.

(** The predicates of [generic.view], in the order they are resolved. *)
Definition view_predicates : list Predicate :=
  sort_predicates 3 [request_method_axis; name_axis; model_axis] [].

(** A registered view under its key: predicate name to key. *)
Record Registration : Type :=
  MkRegistration { reg_key : gmap string Key; reg_view : View }.

Section Dispatch.

(** The classes a class inherits from, nearest first, itself
    included ([cls.__mro__]). *)
Variable mro : Class -> list Class.

Definition axis_key (p : Predicate) (kd : gmap string Key) : option Key :=
  match kd !! pred_name p with
  | Some k => Some k
  | None => pred_default p
  end.

(** The keys a registration may have to match key [k]: the key itself
    for an exact index, the class and its ancestors for a class
    index. *)
Definition key_permutations (p : Predicate) (k : option Key) : list Key :=
  match k with
  | None => []
  | Some k =>
      match pred_index p with
      | ClassIndex => mro k
      | KeyIndex => [k]
      end
  end.

Definition axis_exact (p : Predicate) (k : Key) (r : Registration) : bool :=
  bool_decide (axis_key p (reg_key r) = Some k).

(** The first of the lists that is not empty. *)
Fixpoint first_inhabited {A : Type} (ls : list (list A)) : list A :=
  match ls with
  | [] => []
  | [] :: rest => first_inhabited rest
  | l :: _ => l
  end.

(** Modelled from the spec: what an axis keeps of the registrations
    that survived the earlier axes (section 4.3).  An exact index
    keeps those registered for the key.  A class index keeps those
    registered for the nearest class of the hierarchy that has any:
    the nearest ancestor wins. *)
Definition axis_select (p : Predicate) (k : option Key)
    (cands : list Registration) : list Registration :=
  first_inhabited
    (map (fun k' => filter (fun r => axis_exact p k' r = true) cands)
       (key_permutations p k)).

(** Modelled from the spec: the dispatch resolver (section 4.3; it is
    [reg], which is not among the sources).  Axis by axis, the
    registrations that survived the earlier axes are narrowed to those
    the axis keeps for its key; when none is left the fallback of this
    axis is the outcome. *)
Fixpoint narrow (preds : list Predicate) (key : Predicate -> option Key)
    (cands : list Registration) : list Registration + Callable :=
  match preds with
  | [] => inl cands
  | p :: ps =>
      match axis_select p (key p) cands with
      | [] => inr (fallback p)
      | cs => narrow ps key cs
      end
  end.

Fixpoint first_some {A B : Type} (f : A -> option B) (l : list A) : option B :=
  match l with
  | [] => None
  | x :: rest =>
      match f x with
      | Some b => Some b
      | None => first_some f rest
      end
  end.

(** Modelled from the spec: among the registrations matching on every
    axis the most specific one is the handler, the nearest ancestor
    class first. *)
Fixpoint most_specific (preds : list Predicate) (key : Predicate -> option Key)
    (cands : list Registration) : option View :=
  match preds with
  | [] => reg_view <$> head cands
  | p :: ps =>
      first_some
        (fun k => most_specific ps key
                    (filter (fun r => axis_exact p k r = true) cands))
        (key_permutations p (key p))
  end.

(** [generic.view.component(request, obj, lookup=...)] on the
    registrations of a lookup. *)
Definition component (registry : list Registration) (request : Request)
    (obj : Obj) : Component :=
  let key p := Some (get_key p request obj) in
  match narrow view_predicates key registry with
  | inr f => CFunc f
  | inl cs =>
      match most_specific view_predicates key cs with
      | Some v => CView v
      | None => CNone
      end
  end.

(** [generic.view.component_key_dict(lookup=..., **predicates)]: the
    view registered for a key, predicates left out taking their
    default; [None] when there is none. *)
Definition component_key_dict (registry : list Registration)
    (predicates : gmap string Key) : option View :=
  most_specific view_predicates (fun p => axis_key p predicates) registry.

(** What a view is registered for: a class, a view name and a request
    method.  A name left out is the empty name and a request method
    left out is [GET] ([core.py], lines 145 and 157). *)
Definition registered_class (r : Registration) : option Class :=
  reg_key r !! "model".

Definition registered_name (r : Registration) : string :=
  default "" (reg_key r !! "name").

Definition registered_method (r : Registration) : string :=
  default "GET" (reg_key r !! "request_method").

(** The nearest class of the hierarchy of [cls], [cls] included, that
    some view of [registry] is registered for. *)
Definition nearest_registered (registry : list Registration) (cls : Class)
  : option Class :=
  List.find
    (fun c => existsb (fun r => bool_decide (registered_class r = Some c))
                registry)
    (mro cls).

(** The views of [registry] registered for a class, a name and a
    request method. *)
Definition views_for (registry : list Registration) (cls : Class)
    (name meth : string) : list Registration :=
  filter (fun r => registered_class r = Some cls /\
                   registered_name r = name /\ registered_method r = meth)
    registry.

End Dispatch.

(** ** Following deferred links ([request.py], [follow_defers]) *)

Section Morepath.

(** The generic functions of [morepath.generic], by the lookup they
    are called with. *)

(** [generic.deferred_link_app(app, obj, lookup=...)] *)
Variable deferred_link_app : RegLookup -> App -> Obj -> option App.

(** [generic.path(obj, lookup=...)]: the path and URL parameters of
    [obj], or [None]. *)
Variable generic_path : RegLookup -> Obj -> option (string * Params).

(** [generic.link_prefix(request, lookup=...)] *)
Variable generic_link_prefix : RegLookup -> Request -> string.

(** [generic.identify] and [generic.verify_identity] *)
Variable generic_identify : RegLookup -> Request -> option Identity.
Variable generic_verify_identity : RegLookup -> Identity -> bool.

(** [generic.permits(identity, obj, permission, lookup=...)] *)
Variable generic_permits :
  RegLookup -> Identity -> Obj -> Permission -> bool.

(** [generic.view.component(request, obj, lookup=...)] *)
Variable generic_view_component : RegLookup -> Request -> Obj -> Component.

(** [generic.view.component_key_dict(lookup=..., **predicates)] *)
Variable generic_view_component_key_dict :
  RegLookup -> gmap string Key -> option View.

(** [repr(obj)], used in error messages. *)
Variable repr : Obj -> string.

(** As in [Quote]. *)
Variable tilde_always_safe : bool.

Definition circular_defer (obj : Obj) : Exn :=
  LinkError ("Circular defer. Cannot link to: " +:+ repr obj).

(** The [while app is not None] loop of [follow_defers], one
    iteration for each unit of fuel.  The result is the pair
    [(thing found or None, app)], or the [LinkError] raised; it is
    [None] when the fuel runs out before the loop ends. *)
Fixpoint follow_defers_loop {A : Type} (fuel : nat)
    (find : App -> Obj -> option A) (seen : gset App)
    (app : option App) (obj : Obj)
  : option (Res (option A * option App)) :=
  match fuel with
  | O => None
  | S fuel' =>
      match app with
      | None => Some (Ok (None, None))
      | Some a =>
          if decide (a ∈ seen) then Some (Raise (circular_defer obj))
          else
            match find a obj with
            | Some result => Some (Ok (Some result, Some a))
            | None =>
                follow_defers_loop fuel' find ({[a]} ∪ seen)
                  (deferred_link_app (app_lookup a) a obj) obj
            end
      end
  end.

Definition follow_defers {A : Type} (fuel : nat)
    (find : App -> Obj -> option A) (app : option App) (obj : Obj)
  : option (Res (option A * option App)) :=
  follow_defers_loop fuel find ∅ app obj.

(** The chain of applications a walk goes through: the application it
    starts in, the one that application defers to, and so on. *)
Fixpoint defer_chain (n : nat) (app : option App) (obj : Obj) : option App :=
  match n with
  | O => app
  | S n' =>
      match app with
      | None => None
      | Some a => defer_chain n' (deferred_link_app (app_lookup a) a obj) obj
      end
  end.

(** The first [n] applications of the chain found nothing and are all
    different. *)
Definition nothing_before {A : Type} (find : App -> Obj -> option A)
    (app : option App) (obj : Obj) (n : nat) : Prop :=
  forall j, j < n ->
    exists b, defer_chain j app obj = Some b /\ find b obj = None /\
              forall i, i < j -> defer_chain i app obj <> Some b.

(** The three ways a walk ends, in terms of the chain. *)
Definition walk_outcome {A : Type} (find : App -> Obj -> option A)
    (app : option App) (obj : Obj) (r : Res (option A * option App)) : Prop :=
  match r with
  | Ok (Some x, Some a) =>
      exists n, defer_chain n app obj = Some a /\ find a obj = Some x /\
                (forall i, i < n -> defer_chain i app obj <> Some a) /\
                nothing_before find app obj n
  | Ok (Some _, None) => False
  | Ok (None, o) =>
      o = None /\
      exists n, defer_chain n app obj = None /\ nothing_before find app obj n
  | Raise e =>
      e = circular_defer obj /\
      exists i n a, i < n /\ defer_chain n app obj = Some a /\
                    defer_chain i app obj = Some a /\
                    nothing_before find app obj n
  end.

(** ** Links across mounts ([request.py], [link] and [mounted_link]) *)

(** The loop of [mounted_link].  [obj] is the application whose path
    in its parent is asked for next; the variable [app] of the source
    is [parent obj] throughout.  [parameters.update(params)] lets the
    parameters of the parent override. *)
Fixpoint mounted_link_loop (result : list string) (parameters : Params)
    (obj : App) : option (list string * Params) :=
  match obj with
  | MkApp _ _ _ None => Some (result, parameters)
  | MkApp _ _ _ (Some app) =>
      match generic_path (app_lookup app) (Mounted obj) with
      | None => None
      | Some (path, params) =>
          mounted_link_loop (result ++ [path])%list (params ∪ parameters) app
      end
  end.

Definition mounted_link (path : string) (parameters : Params) (app : App)
  : option (string * Params) :=
  match mounted_link_loop [path] parameters app with
  | None => None
  | Some (result, parameters') =>
      Some (strip_slash (join "/" (rev result)), parameters')
  end.

Definition link (obj : Obj) (app : App) : option (string * Params) :=
  match generic_path (app_lookup app) obj with
  | None => None
  | Some (path, parameters) => mounted_link path parameters app
  end.

(** What the mounts above [app] contribute, the nearest first: for
    each application of the chain that is mounted, its path and
    parameters in its parent, or [None]. *)
Fixpoint mount_infos (app : App) : list (option (string * Params)) :=
  match app with
  | MkApp _ _ _ None => []
  | MkApp _ _ _ (Some p) =>
      generic_path (app_lookup p) (Mounted app) :: mount_infos p
  end.

(** The parameters of the mounts, the nearest first, merged into
    [base]: a mount overrides what is below it. *)
Definition merge_parameters (ps : list Params) (base : Params) : Params :=
  fold_left (fun acc p => p ∪ acc) ps base.

(** The link path the specification describes: the fragments of the
    mounts from the root down, then the path of the model, joined with
    [/] and stripped of slashes at both ends. *)
Definition spec_link_path (frags : list (string * Params)) (path : string)
  : string :=
  strip_slash (join "/" (rev (map fst frags) ++ [path])%list).

(** ** [Request] methods ([request.py]) *)

(** The [app] argument of [view] and [link]. *)
Inductive AppArg : Type :=
| SAME_APP
| AppIs (a : option App).

(** [Request.identity], a reified property. *)
Definition identity (self : Request) : Request * Identity :=
  match identity_cache self with
  | Some i => (self, i)
  | None =>
      let i :=
        match generic_identify (req_lookup self) self with
        | None | Some NO_IDENTITY => NO_IDENTITY
        | Some result =>
            if generic_verify_identity (req_lookup self) result
            then result else NO_IDENTITY
        end in
      (set_identity_cache self i, i)
  end.

(** [Request.link_prefix] *)
Definition link_prefix (self : Request) : Request * string :=
  let cls := app_class (req_app self) in
  match _link_prefix_cache self !! cls with
  | Some cached => (self, cached)
  | None =>
      let prefix := generic_link_prefix (req_lookup self) self in
      (set_link_prefix_cache self (<[cls := prefix]> (_link_prefix_cache self)),
       prefix)
  end.

(** [Request._encode_link] *)
Definition Request_encode_link (self : Request) (path name : string)
    (parameters : Params) : Request * string :=
  let '(self', prefix) := link_prefix self in
  (self', _encode_link tilde_always_safe prefix path name
            (map_to_list parameters)).

Definition cannot_link (obj : Obj) : Exn :=
  LinkError ("Cannot link to: " +:+ repr obj).

(** [Request.link(obj, name, default, app)]; [None] when the fuel
    given to [follow_defers] runs out. *)
Definition Request_link (fuel : nat) (self : Request) (obj : option Obj)
    (name : string) (default : option string) (app : AppArg)
  : option (Request * Res (option string)) :=
  match obj with
  | None => Some (self, Ok default)
  | Some obj =>
      match app with
      | AppIs None => Some (self, Raise (LinkError "Cannot link: app is None"))
      | _ =>
          let app :=
            match app with
            | AppIs (Some a) => a
            | _ => req_app self
            end in
          let find app obj := link obj app in
          match follow_defers fuel find (Some app) obj with
          | None => None
          | Some (Raise e) => Some (self, Raise e)
          | Some (Ok (None, _)) => Some (self, Raise (cannot_link obj))
          | Some (Ok (Some (path, parameters), _)) =>
              let '(self', url) :=
                Request_encode_link self path name parameters in
              Some (self', Ok (Some url))
          end
      end
  end.

(** [Request.view(obj, default, app, **predicates)]; [None] when the
    fuel given to [follow_defers] runs out.  Beside the request and
    the result, the view functions that were called are returned. *)
Definition Request_view (fuel : nat) (self : Request) (obj : Obj)
    (default : option Content) (app : AppArg) (predicates : gmap string Key)
  : option (Request * list View * Res (option Content)) :=
  match app with
  | AppIs None => Some (self, [], Raise (LinkError "Cannot view: app is None"))
  | _ =>
      let app :=
        match app with
        | AppIs (Some a) => a
        | _ => req_app self
        end in
      let predicates := <["model" := class_of obj]> predicates in
      let find (app : App) (obj : Obj) :=
        generic_view_component_key_dict (app_lookup app) predicates in
      match follow_defers fuel find (Some app) obj with
      | None => None
      | Some (Raise e) => Some (self, [], Raise e)
      | Some (Ok (None, _)) => Some (self, [], Ok default)
      | Some (Ok (Some view, None)) =>
          Some (self, [],
                Raise (AttributeError
                         "'NoneType' object has no attribute 'set_implicit'"))
      | Some (Ok (Some view, Some app)) =>
          let old_app := req_app self in
          let old_lookup := req_lookup self in
          let self := set_implicit app self in
          let self := set_app self app in
          let self := set_lookup self (app_lookup app) in
          match func view obj self with
          | (self, Raise e) => Some (self, [view], Raise e)
          | (self, Ok result) =>
              let self := set_implicit old_app self in
              let self := set_app self old_app in
              let self := set_lookup self old_lookup in
              Some (self, [view], Ok (Some result))
          end
      end
  end.

(** ** The response of a view ([core.py], [get_response]) *)

(** Beside the request and the response, the views that were called
    are returned. *)
Definition get_response (request : Request) (obj : Obj)
  : Request * list View * Res (option Response) :=
  match generic_view_component (req_lookup request) request obj with
  | CNone =>
      (request, [], Raise (TypeError "'NoneType' object is not callable"))
  | CFunc view =>
      let '(request', result) := call view request obj in
      (request', [], result)
  | CView view =>
      if internal view then (request, [], Ok None)
      else
        let '(request, denied) :=
          match permission view with
          | None => (request, false)
          | Some perm =>
              let '(request', ident) := identity request in
              (request',
               negb (generic_permits (req_lookup request') ident obj perm))
          end in
        if denied then (request, [], Raise HTTPForbidden)
        else
          match call_view view request obj with
          | (request, Raise e) => (request, [view], Raise e)
          | (request, Ok (ContentResponse content)) =>
              (request, [view], Ok (Some content))
          | (request, Ok (ContentValue v)) =>
              let response :=
                match render view with
                | Some render => render (ContentValue v) request
                | None => MkResponse v "text/plain" []
                end in
              (request, [view], Ok (Some (run_after request response)))
          end
  end.

End Morepath.

(** ** Consuming a path ([core.py], [traject_consume]) *)

(** The values the variables of a route can have. *)
Inductive Value : Type :=
| VStr (s : string)
| VObj (o : Obj)
| VRequest (r : Request).

Abbreviation Variables := (gmap string Value).

(** What a path is registered with: the model factory, called through
    [mapply] with the variables it asks for, and the function taking
    the URL parameters from [request.GET]. *)
Record Route : Type :=
  MkRoute { get_model : Variables -> option Obj;
            get_parameters : list (string * string) -> Variables }.

(** The [Traject] class is in [traject.py], which is not among the
    sources; its [consume] method is taken as it is given.  Called
    with the list [request.unconsumed], it returns
    [(value, stack, traject_variables)]; the first component here is
    what the list it was called with holds after the call, since a
    Python list is passed by reference. *)
Record Traject : Type :=
  MkTraject { consume :
                list string ->
                list string * (option Route * list string * Variables) }.

(** The variables the model factory is called with. *)
Definition consume_variables (request : Request) (model : Obj)
    (route : Route) (context traject_variables : Variables) : Variables :=
  traject_variables ∪
  <["request" := VRequest request]>
    (<["parent" := VObj model]>
       (context ∪ get_parameters route (GET request))).

(** A traject that treats its argument as [traject] does and matches
    nothing. *)
Definition no_match (traject : Traject) : Traject :=
  MkTraject (fun stack => (fst (consume traject stack), (None, stack, ∅))).

Section Consume.

(** [generic.traject(model, lookup=...)] *)
Variable generic_traject : RegLookup -> Obj -> option Traject.

(** [generic.context(model, lookup=...)] *)
Variable generic_context : RegLookup -> Obj -> option Variables.

Definition traject_consume (request : Request) (model : Obj)
    (lookup : RegLookup) : Request * option Obj :=
  match generic_traject lookup model with
  | None => (request, None)
  | Some traject =>
      let '(held, (value, stack, traject_variables)) :=
        consume traject (unconsumed request) in
      let request := set_unconsumed request held in
      match value with
      | None => (request, None)
      | Some route =>
          let variables := get_parameters route (GET request) in
          match generic_context lookup model with
          | None => (request, None)
          | Some context =>
              let variables := context ∪ variables in
              let variables := <["parent" := VObj model]> variables in
              let variables := <["request" := VRequest request]> variables in
              let variables := traject_variables ∪ variables in
              match get_model route variables with
              | None => (request, None)
              | Some next_model =>
                  (set_unconsumed request stack, Some next_model)
              end
          end
      end
  end.

End Consume.

(** ** Scenarios *)

Module Scenario.

Definition repr (obj : Obj) : string :=
  match obj with
  | Model cls _ => "<" +:+ cls +:+ ">"
  | Mounted a => "<" +:+ app_class a +:+ ">"
  end.

Definition link_prefix (_ : RegLookup) (_ : Request) : string :=
  "http://localhost".

Definition request_in (app : App) (name meth : string) : Request :=
  MkRequest app (app_lookup app) [] name meth [] [] ∅ None None.

(** *** An application mounted in another (the fixture [nested]) *)

Definition outer_app : App := MkApp 1 "outer_app" "outer" None.
Definition inner_app : App := MkApp 2 "inner_app" "inner" (Some outer_app).

Definition foo : Obj := Model "Model" "foo".

(** [inner_app] has the path [{id}] for [Model]; [outer_app] mounts
    [inner_app] at [inner]. *)
Definition nested_path (lookup : RegLookup) (obj : Obj)
  : option (string * Params) :=
  match obj with
  | Model "Model" id =>
      if String.eqb lookup "inner" then Some (id, ∅) else None
  | Mounted a =>
      if String.eqb lookup "outer" && String.eqb (app_class a) "inner_app"
      then Some ("inner", ∅) else None
  | _ => None
  end.

Definition no_defer (_ : RegLookup) (_ : App) (_ : Obj) : option App := None.

(** *** A mount that cannot be linked to, and a deferred link *)

(** [bare_app] has no path for the application mounted in it;
    [other_app] has the path [{id}] for [Model]. *)
Definition bare_app : App := MkApp 3 "bare_app" "bare" None.
Definition orphan_app : App := MkApp 4 "inner_app" "inner" (Some bare_app).
Definition other_app : App := MkApp 5 "other_app" "other" None.

Definition broken_path (lookup : RegLookup) (obj : Obj)
  : option (string * Params) :=
  match obj with
  | Model "Model" id =>
      if String.eqb lookup "inner" || String.eqb lookup "other"
      then Some (id, ∅) else None
  | _ => None
  end.

(** [inner_app] defers the links of its models to [other_app]. *)
Definition defer_to_other (lookup : RegLookup) (_ : App) (_ : Obj)
  : option App :=
  if String.eqb lookup "inner" then Some other_app else None.

(** *** Two applications deferring to each other *)

Definition app_a : App := MkApp 1 "A" "a" None.
Definition app_b : App := MkApp 2 "B" "b" None.

Definition cyclic_defer (lookup : RegLookup) (_ : App) (_ : Obj)
  : option App :=
  if String.eqb lookup "a" then Some app_b
  else if String.eqb lookup "b" then Some app_a
  else None.

Definition find_nothing (_ : App) (_ : Obj) : option unit := None.

(** An application deferring to a new instance of itself each time. *)
Definition fresh_defer (_ : RegLookup) (a : App) (_ : Obj) : option App :=
  Some (MkApp (S (app_id a)) (app_class a) (app_lookup a) None).

(** A view whose call passes the request and the model on to its
    function. *)
Definition view_of (f : Obj -> Request -> Request * Res Content)
    (perm : option Permission) (is_internal : bool) : View :=
  MkView f (fun request obj => f obj request) None perm is_internal.

(** *** A view that raises, found through a deferred link *)

Definition failing_view : View :=
  view_of (fun _ request => (request, Raise (ViewError "boom"))) None false.

Definition views_of_b (lookup : RegLookup) (_ : gmap string Key)
  : option View :=
  if String.eqb lookup "b" then Some failing_view else None.

(** *** Views with a permission *)

Definition hello_view (perm : option Permission) (is_internal : bool) : View :=
  view_of (fun _ request => (request, Ok (ContentValue "hello")))
    perm is_internal.

(** [has_permission] of [core.py]: nothing is permitted. *)
Definition has_permission (_ : RegLookup) (_ : Identity) (_ : Obj)
    (_ : Permission) : bool := false.

Definition no_identify (_ : RegLookup) (_ : Request) : option Identity := None.
Definition verify_all (_ : RegLookup) (_ : Identity) : bool := true.

(** *** A default view and an internal view ([test_internal.py]) *)

Definition root : Obj := Model "Root" "".

Definition root_internal : View :=
  view_of (fun _ request => (request, Ok (ContentValue "Internal!")))
    None true.

Definition root_default : View :=
  view_of (fun _ request => (request, Ok (ContentValue "Root")))
    None false.

Definition internal_registry : list Registration :=
  [ MkRegistration {[ "model" := "Root" ]} root_default;
    MkRegistration (<["name" := "internal"]> {[ "model" := "Root" ]})
      root_internal ].

Definition views (_ : RegLookup) : list Registration := internal_registry.

Definition mro (c : Class) : list Class := [c; "object"].

(** *** A traject with the path [{id}] ([test_model.py]) *)

(** The factory finds no model with the id [missing]. *)
Definition model_route : Route :=
  MkRoute
    (fun variables =>
       match variables !! "id" with
       | Some (VStr "missing") => None
       | Some (VStr id) => Some (Model "Model" id)
       | _ => None
       end)
    (fun _ => ∅).

Definition id_traject : Traject :=
  MkTraject (fun stack =>
    (stack,
     match stack with
     | [] => (None, [], ∅)
     | segment :: rest =>
         (Some model_route, rest, {[ "id" := VStr segment ]})
     end)).

Definition app_traject (_ : RegLookup) (_ : Obj) : option Traject :=
  Some id_traject.

Definition empty_context (_ : RegLookup) (_ : Obj) : option Variables :=
  Some ∅.

Definition request_for (stack : list string) : Request :=
  MkRequest outer_app "outer" stack "" "GET" [] [] ∅ None None.

End Scenario.

(** ** More of [core.py] and [request.py] *)

(** The last character of a text. *)
Fixpoint last_char (s : string) : option ascii :=
  match s with
  | "" => None
  | String c "" => Some c
  | String _ s' => last_char s'
  end.

Definition set_after (r : Request) (hooks : list (Response -> Response))
  : Request :=
  MkRequest (req_app r) (req_lookup r) (unconsumed r) (view_name r)
    (method r) (GET r) hooks (_link_prefix_cache r) (identity_cache r)
    (implicit r).

(** [Request.after(func)]: the function is kept, to be called with the
    response.  What the function does to the response it is given is
    its result here. *)
Definition after (self : Request) (f : Response -> Response) : Request :=
  set_after self (_after self ++ [f])%list.

(** [Request.clear_after] *)
Definition clear_after (self : Request) : Request := set_after self [].

Section MoreLinks.

(** [generic.path(obj, lookup=...)], as above. *)
Variable generic_path : RegLookup -> Obj -> option (string * Params).

(** [generic.class_path(model, variables=..., lookup=...)]: the path
    and URL parameters of a model class for the values of its
    variables, or [None]. *)
Variable generic_class_path :
  RegLookup -> Class -> gmap string string -> option (string * Params).

Variable generic_link_prefix : RegLookup -> Request -> string.
Variable tilde_always_safe : bool.

(** [repr(model)] for a class. *)
Variable repr_class : Class -> string.

(** The loop of [link] in [core.py], entered with a mount: the path of
    [model] is asked of the lookup of [mounted], then the path of
    [mounted] of the lookup of its parent, and so on.  The result of
    [generic.path] is unpacked without a test: [None] is a
    [TypeError]. *)
Fixpoint core_link_loop (result : list string) (parameters : Params)
    (model : Obj) (mounted : App) : Res (list string * Params) :=
  match generic_path (app_lookup mounted) model with
  | None => Raise (TypeError "cannot unpack non-iterable NoneType object")
  | Some (path, params) =>
      match mounted with
      | MkApp _ _ _ None => Ok ((result ++ [path])%list, params ∪ parameters)
      | MkApp _ _ _ (Some p) =>
          core_link_loop (result ++ [path])%list (params ∪ parameters)
            (Mounted mounted) p
      end
  end.

(** [link(request, model, mounted)] of [core.py], for the
    [script_name] of the request.  Of the mount its [lookup] and its
    [parent] are read, which an application has. *)
Definition core_link (script_name : string) (model : Obj)
    (mounted : option App) : Res (string * Params) :=
  match mounted with
  | None => Ok (strip_slash (join "/" (rev [script_name])), ∅)
  | Some m =>
      match core_link_loop [] ∅ model m with
      | Raise e => Raise e
      | Ok (result, parameters) =>
          Ok (strip_slash (join "/" (rev (result ++ [script_name])%list)),
              parameters)
      end
  end.

(** [class_link(model, variables, app)] of [request.py] *)
Definition class_link (model : Class) (variables : gmap string string)
    (app : App) : option (string * Params) :=
  match generic_class_path (app_lookup app) model variables with
  | None => None
  | Some (path, parameters) => mounted_link generic_path path parameters app
  end.

Definition cannot_link_class (model : Class) : Exn :=
  LinkError ("Cannot link to class: " +:+ repr_class model).

(** [Request.class_link(model, variables, name, app)] *)
Definition Request_class_link (self : Request) (model : Class)
    (variables : option (gmap string string)) (name : string) (app : AppArg)
  : Request * Res string :=
  let variables :=
    match variables with
    | None => ∅
    | Some v => v
    end in
  match app with
  | AppIs None => (self, Raise (LinkError "Cannot link: app is None"))
  | _ =>
      let app :=
        match app with
        | AppIs (Some a) => a
        | _ => req_app self
        end in
      match class_link model variables app with
      | None => (self, Raise (cannot_link_class model))
      | Some (path, parameters) =>
          let '(self', url) :=
            Request_encode_link generic_link_prefix tilde_always_safe self
              path name parameters in
          (self', Ok url)
      end
  end.

End MoreLinks.

(** ** Identities ([security.py]) *)

Module Security.

(** The values a caller gives for the attributes of an identity:
    [None] or text. *)
Inductive Arg : Type :=
| ArgNone
| ArgStr (s : string).

(** The values of the attributes of an instance: a value that was
    given, or the keys of the keywords ([kw.keys()]). *)
Inductive PyValue : Type :=
| PyArg (a : Arg)
| PyKeys (names : list string).

(** The attributes of an instance ([self.__dict__]). *)
Abbreviation Attrs := (gmap string PyValue).

(** The keywords of a call ([**kw]), in the order of [kw.items()].  A
    dictionary has no key twice. *)
Abbreviation Keywords := (list (string * Arg)).

(** Binding the keywords of the call [Identity(userid, **kw)]: a
    keyword named as [self] or [userid], which are given by position,
    is a [TypeError] of the call. *)
Fixpoint bind_keywords (kw : Keywords) : Res unit :=
  match kw with
  | [] => Ok tt
  | (k, _) :: rest =>
      if String.eqb k "self" || String.eqb k "userid"
      then Raise (TypeError
                    ("__init__() got multiple values for argument '" +:+ k
                     +:+ "'"))
      else bind_keywords rest
  end.

(** [setattr(self, name, value)] on an instance of [Identity], a class
    with no [__slots__] and no [__setattr__] of its own.  The type has
    three attributes that take the assignment themselves:
    [__class__], which accepts a class only, [__dict__], which accepts
    a dictionary only, and [__weakref__], which cannot be written.
    Every other name is set in the dictionary of the instance. *)
Definition setattr (self : Attrs) (name : string) (value : Arg)
  : Res Attrs :=
  if String.eqb name "__class__"
  then Raise (TypeError "__class__ must be set to a class")
  else if String.eqb name "__dict__"
  then Raise (TypeError "__dict__ must be set to a dictionary")
  else if String.eqb name "__weakref__"
  then Raise (AttributeError
                "attribute '__weakref__' of 'Identity' objects is not writable")
  else Ok (<[name := PyArg value]> self).

(** [for key, value in kw.items(): setattr(self, key, value)] *)
Fixpoint setattr_all (self : Attrs) (kw : Keywords) : Res Attrs :=
  match kw with
  | [] => Ok self
  | (key, value) :: rest =>
      match setattr self key value with
      | Raise e => Raise e
      | Ok self' => setattr_all self' rest
      end
  end.

(** [Identity(userid, **kw)]: the attributes the instance has after
    [__init__]. *)
Definition Identity_init (userid : Arg) (kw : Keywords) : Res Attrs :=
  match bind_keywords kw with
  | Raise e => Raise e
  | Ok _ =>
      let self := {[ "userid" := PyArg userid ]} in
      let self := <["_names" := PyKeys kw.*1]> self in
      match setattr_all self kw with
      | Raise e => Raise e
      | Ok self => Ok (<["verified" := PyArg ArgNone]> self)
      end
  end.

(** [getattr(self, name)] for the names [as_dict] asks for: [userid],
    [_names], a key of the keywords, or, where a keyword [_names] gave
    a text, a single character.  These are found in the dictionary of
    the instance or not at all: no attribute of the class is named by
    one character. *)
Definition getattr (self : Attrs) (name : string) : Res PyValue :=
  match self !! name with
  | Some v => Ok v
  | None =>
      Raise (AttributeError
               ("'Identity' object has no attribute '" +:+ name +:+ "'"))
  end.

(** [for name in v]: the keys, or the characters of a text. *)
Definition iterate (v : PyValue) : Res (list string) :=
  match v with
  | PyKeys names => Ok names
  | PyArg (ArgStr s) =>
      Ok (map (fun c => String c "") (list_ascii_of_string s))
  | PyArg ArgNone => Raise (TypeError "'NoneType' object is not iterable")
  end.

(** The loop of [as_dict]. *)
Fixpoint as_dict_loop (self : Attrs) (names : list string) (result : Attrs)
  : Res Attrs :=
  match names with
  | [] => Ok result
  | name :: rest =>
      match getattr self name with
      | Raise e => Raise e
      | Ok v => as_dict_loop self rest (<[name := v]> result)
      end
  end.

(** [identity.as_dict()].  An attribute [as_dict] of the instance
    hides the method, and calling its value fails. *)
Definition as_dict (self : Attrs) : Res Attrs :=
  match self !! "as_dict" with
  | Some _ => Raise (TypeError "object is not callable")
  | None =>
      match getattr self "userid" with
      | Raise e => Raise e
      | Ok userid =>
          match getattr self "_names" with
          | Raise e => Raise e
          | Ok v =>
              match iterate v with
              | Raise e => Raise e
              | Ok names => as_dict_loop self names {[ "userid" := userid ]}
              end
          end
      end
  end.

(** The keywords [__init__] does not accept, and those that [as_dict]
    does not give back as they were given. *)
Definition refused_keywords : list string :=
  ["self"; "userid"; "__class__"; "__dict__"; "__weakref__"].

Definition reserved_keywords : list string :=
  (refused_keywords ++ ["_names"; "verified"; "as_dict"])%list.

Section PolicyRegistry.

(** An identity policy, the functions registered, and the dispatch
    functions they are registered for. *)
Variables Policy Function Dispatch Settings : Type.

(** [getattr(identity_policy, name)], also for the value [None];
    [None] as the result is an [AttributeError]. *)
Variable policy_getattr : option Policy -> string -> option Function.

(** [IdentityPolicyRegistry]: the settings it was made with, the
    identity policy, which is [None] at first, and the functions
    registered with the [reg_registry], the latest last. *)
Record IdentityPolicyRegistry : Type :=
  MkRegistry { setting_registry : Settings;
               identity_policy : option Policy;
               registered : list (Dispatch * Function) }.

(** [IdentityPolicyRegistry(reg_registry, setting_registry)] *)
Definition new_registry (settings : Settings) : IdentityPolicyRegistry :=
  MkRegistry settings None [].

(** [register_identity_policy_function(factory, dispatch, name)].
    What the factory returns may be [None]; the test
    [identity_policy is None] is on the value the registry holds. *)
Definition register_identity_policy_function (self : IdentityPolicyRegistry)
    (factory : Settings -> option Policy) (dispatch : Dispatch)
    (name : string) : IdentityPolicyRegistry * Res unit :=
  let policy :=
    match identity_policy self with
    | Some p => Some p
    | None => factory (setting_registry self)
    end in
  let self := MkRegistry (setting_registry self) policy (registered self) in
  match policy_getattr policy name with
  | None => (self, Raise (AttributeError name))
  | Some f =>
      (MkRegistry (setting_registry self) policy
         (registered self ++ [(dispatch, f)])%list,
       Ok tt)
  end.

(** Registrations one after the other, up to the first that raises. *)
Fixpoint register_all (self : IdentityPolicyRegistry)
    (calls : list ((Settings -> option Policy) * Dispatch * string))
  : IdentityPolicyRegistry * Res unit :=
  match calls with
  | [] => (self, Ok tt)
  | (factory, dispatch, name) :: rest =>
      match register_identity_policy_function self factory dispatch name with
      | (self', Ok _) => register_all self' rest
      | (self', Raise e) => (self', Raise e)
      end
  end.

End PolicyRegistry.

End Security.

(** ** What [replace] repairs *)

(** [s.replace('%7E', '~')] turns [s] into [t], whatever text comes
    after [s]. *)
Definition repaired (s t : string) : Prop :=
  forall rest,
    replace "%7E" "~" (s +:+ rest) = t +:+ replace "%7E" "~" rest.

(** ** More scenarios *)

Module Fixture.

(** [inner_app] has the path [{id}] for the class [Model]; variables
    the path does not use are URL parameters. *)
Definition class_path (lookup : RegLookup) (model : Class)
    (variables : gmap string string) : option (string * Params) :=
  if String.eqb lookup "inner" && String.eqb model "Model"
  then match variables !! "id" with
       | Some id => Some (id, (fun v => [v]) <$> delete "id" variables)
       | None => None
       end
  else None.

Definition repr_class (model : Class) : string :=
  "<class '" +:+ model +:+ "'>".

(** An identity policy that knows the user [joe]. *)
Definition identify_joe (_ : RegLookup) (_ : Request) : option Identity :=
  Some (MkIdentity "joe").

Definition permit_all (_ : RegLookup) (_ : Identity) (_ : Obj)
    (_ : Permission) : bool := true.

(** [response.headers.add('blah', 'something')] *)
Definition add_blah (response : Response) : Response :=
  MkResponse (body response) (content_type response)
    (headers response ++ [("blah", "something")])%list.

(** A view that registers [add_blah] with [request.after]. *)
Definition after_view : View :=
  Scenario.view_of
    (fun _ request => (after request add_blah, Ok (ContentValue "hello")))
    (Some "ViewPermission") false.

(** A class and its base class: [Sub] has a default view, [Base] a
    view [edit] for [POST]. *)
Definition sub : Obj := Model "Sub" "".

Definition sub_mro (c : Class) : list Class :=
  if String.eqb c "Sub" then ["Sub"; "Base"; "object"] else [c; "object"].

Definition inherited_registry : list Registration :=
  [ MkRegistration {[ "model" := "Sub" ]} Scenario.root_default;
    MkRegistration
      (<["request_method" := "POST"]>
         (<["name" := "edit"]> {[ "model" := "Base" ]}))
      (Scenario.hello_view None false) ].

End Fixture.

(** * Properties *)

(** Induction along the chain of parents of an application. *)
Lemma App_chain_ind (P : App -> Prop) :
  (forall i c k, P (MkApp i c k None)) ->
  (forall i c k p, P p -> P (MkApp i c k (Some p))) ->
  forall a, P a.
Proof.
  intros Hroot Hmounted. fix IH 1. intros [i c k [p|]].
  - apply Hmounted, IH.
  - apply Hroot.
Qed.

(** ** Deferred links *)

Section DeferProperties.

Context (deferred_link_app : RegLookup -> App -> Obj -> option App).
Context (repr : Obj -> string).
Context {A : Type} (find : App -> Obj -> option A) (obj : Obj).

Lemma defer_chain_S n app :
  defer_chain deferred_link_app (S n) app obj =
  match defer_chain deferred_link_app n app obj with
  | None => None
  | Some a => deferred_link_app (app_lookup a) a obj
  end.
Proof.
  revert app. induction n as [|n IH]; intros [a|]; try reflexivity.
  change (defer_chain deferred_link_app (S (S n)) (Some a) obj)
    with (defer_chain deferred_link_app (S n)
            (deferred_link_app (app_lookup a) a obj) obj).
  rewrite IH. reflexivity.
Qed.

(** More fuel does not change a result. *)
Lemma follow_defers_loop_mono fuel fuel' seen app r :
  fuel <= fuel' ->
  follow_defers_loop deferred_link_app repr fuel find seen app obj = Some r ->
  follow_defers_loop deferred_link_app repr fuel' find seen app obj = Some r.
Proof.
  revert fuel' seen app.
  induction fuel as [|fuel IH]; intros fuel' seen app Hle H.
  - discriminate.
  - destruct fuel' as [|fuel']; [lia|]. simpl in *.
    destruct app as [a|]; [|exact H].
    destruct (decide (a ∈ seen)); [exact H|].
    destruct (find a obj); [exact H|].
    apply IH; [lia|exact H].
Qed.

(** When the applications that can be reached are in a finite set,
    the loop ends before the fuel does: each turn adds an application
    of the set to [seen]. *)
Lemma follow_defers_loop_ends (U : gset App) :
  (forall a b, a ∈ U ->
     deferred_link_app (app_lookup a) a obj = Some b -> b ∈ U) ->
  forall fuel seen app,
    seen ⊆ U -> (forall a, app = Some a -> a ∈ U) ->
    size U < fuel + size seen ->
    exists r,
      follow_defers_loop deferred_link_app repr fuel find seen app obj
      = Some r.
Proof.
  intros Hclosed. induction fuel as [|fuel IH]; intros seen app Hsub Happ Hsize.
  - apply subseteq_size in Hsub. simpl in Hsize. lia.
  - simpl. destruct app as [a|]; [|eauto].
    destruct (decide (a ∈ seen)) as [Hin|Hnin]; [eauto|].
    destruct (find a obj) as [x|]; [eauto|].
    pose proof (Happ a eq_refl) as HaU.
    apply IH.
    + intros x Hx. apply elem_of_union in Hx as [Hx|Hx]; [|now apply Hsub].
      apply elem_of_singleton in Hx. now subst x.
    + intros b Hb. eapply Hclosed; [exact HaU|exact Hb].
    + rewrite size_union by set_solver. rewrite size_singleton. lia.
Qed.

(** The result of the loop in terms of the chain: [seen] holds the
    applications of the chain before the current one. *)
Lemma follow_defers_loop_outcome app0 fuel :
  forall k seen r,
    (forall a, a ∈ seen <->
               exists j, j < k /\
                         defer_chain deferred_link_app j app0 obj = Some a) ->
    nothing_before deferred_link_app find app0 obj k ->
    follow_defers_loop deferred_link_app repr fuel find seen
      (defer_chain deferred_link_app k app0 obj) obj = Some r ->
    walk_outcome deferred_link_app repr find app0 obj r.
Proof.
  induction fuel as [|fuel IH]; intros k seen r Hseen Hclean H; [discriminate|].
  simpl in H.
  destruct (defer_chain deferred_link_app k app0 obj) as [a|] eqn:Hk.
  - destruct (decide (a ∈ seen)) as [Hin|Hnin].
    + inversion H; subst r. simpl. split; [reflexivity|].
      apply Hseen in Hin. destruct Hin as (j & Hj & Hcj).
      exists j, k, a. auto.
    + assert (Hfresh : forall i, i < k ->
                defer_chain deferred_link_app i app0 obj <> Some a).
      { intros i Hi Hc. apply Hnin, Hseen. eauto. }
      destruct (find a obj) as [x|] eqn:Hf.
      * inversion H; subst r. simpl. exists k. auto.
      * apply (IH (S k) ({[a]} ∪ seen)).
        -- intros b. rewrite elem_of_union, elem_of_singleton, Hseen. split.
           ++ intros [->|(j & Hj & Hcj)]; [exists k; split; [lia|exact Hk]|].
              exists j; split; [lia|exact Hcj].
           ++ intros (j & Hj & Hcj). destruct (decide (j = k)) as [->|Hne].
              ** left. congruence.
              ** right. exists j. split; [lia|exact Hcj].
        -- intros j Hj. destruct (decide (j = k)) as [->|Hne].
           ++ exists a. auto.
           ++ apply Hclean. lia.
        -- rewrite defer_chain_S, Hk. exact H.
  - inversion H; subst r. simpl. split; [reflexivity|]. exists k. auto.
Qed.

Lemma follow_defers_outcome app fuel r :
  follow_defers deferred_link_app repr fuel find app obj = Some r ->
  walk_outcome deferred_link_app repr find app obj r.
Proof.
  intros H. apply (follow_defers_loop_outcome app fuel 0 ∅ r).
  - intros a. split; [set_solver|]. intros (j & Hj & _). lia.
  - intros j Hj. lia.
  - exact H.
Qed.

(** C2, as amended.  When the applications that deferral reaches from
    [app] lie in a finite set [U], the walk ends: with more than
    [size U] units of fuel [follow_defers] returns one result [r], and
    [r] is that an application of the chain found something and none
    before it did, or the circular defer [LinkError] at the first
    application of the chain that was visited before, or [(None, None)]
    at the end of a chain in which nothing was found. *)
Theorem follow_defers_terminates (U : gset App) (app : App) :
  app ∈ U ->
  (forall a b, a ∈ U ->
     deferred_link_app (app_lookup a) a obj = Some b -> b ∈ U) ->
  exists r,
    (forall fuel, size U < fuel ->
       follow_defers deferred_link_app repr fuel find (Some app) obj
       = Some r) /\
    walk_outcome deferred_link_app repr find (Some app) obj r.
Proof.
  intros Hin Hclosed.
  destruct (follow_defers_loop_ends U Hclosed (S (size U)) ∅ (Some app))
    as [r Hr].
  - set_solver.
  - intros a [= <-]. exact Hin.
  - rewrite size_empty. lia.
  - exists r. split.
    + intros fuel Hfuel. unfold follow_defers.
      eapply follow_defers_loop_mono; [|exact Hr]. lia.
    + now apply (follow_defers_outcome (Some app) (S (size U))).
Qed.

End DeferProperties.

(** [A] defers to [B] and [B] to [A]: linking fails with the circular
    defer error. *)
Example cyclic_defer_raises :
  follow_defers Scenario.cyclic_defer Scenario.repr 3 Scenario.find_nothing
    (Some Scenario.app_a) Scenario.foo
  = Some (Raise (circular_defer Scenario.repr Scenario.foo)).
Proof. reflexivity. Qed.

Lemma follow_defers_terminates_witness :
  exists r,
    (forall fuel, size ({[Scenario.app_a; Scenario.app_b]} : gset App) < fuel ->
       follow_defers Scenario.cyclic_defer Scenario.repr fuel
         Scenario.find_nothing (Some Scenario.app_a) Scenario.foo = Some r) /\
    walk_outcome Scenario.cyclic_defer Scenario.repr Scenario.find_nothing
      (Some Scenario.app_a) Scenario.foo r.
Proof.
  apply (follow_defers_terminates Scenario.cyclic_defer Scenario.repr
           Scenario.find_nothing Scenario.foo
           {[Scenario.app_a; Scenario.app_b]} Scenario.app_a).
  - apply elem_of_union_l, elem_of_singleton. reflexivity.
  - intros a b Ha Hb. unfold Scenario.cyclic_defer in Hb.
    destruct (String.eqb (app_lookup a) "a").
    + injection Hb as <-. apply elem_of_union_r, elem_of_singleton.
      reflexivity.
    + destruct (String.eqb (app_lookup a) "b"); [|discriminate].
      injection Hb as <-. apply elem_of_union_l, elem_of_singleton.
      reflexivity.
Defined.

(** C2 as stated fails: a walk from an application that finds nothing
    and defers to no other produces no result and raises no error; it
    returns [(None, None)]. *)
Lemma follow_defers_chain_end_counterexample :
  ~ (forall (defer : RegLookup -> App -> Obj -> option App)
            (find : App -> Obj -> option unit) (app : App) (obj : Obj),
       exists fuel,
         (exists x a,
            follow_defers defer Scenario.repr fuel find (Some app) obj
            = Some (Ok (Some x, Some a))) \/
         follow_defers defer Scenario.repr fuel find (Some app) obj
         = Some (Raise (circular_defer Scenario.repr obj))).
Proof.
  intros H.
  destruct (H Scenario.no_defer Scenario.find_nothing Scenario.app_a
              Scenario.foo) as [fuel [(x & a & Hf)|Hf]];
    destruct fuel as [|[|fuel]]; discriminate Hf.
Qed.

(** Without the finite set the walk need not end: when each
    application defers to a new instance, no amount of fuel is
    enough. *)
Lemma fresh_defer_never_ends (fuel : nat) :
  forall (seen : gset App) (a : App),
    (forall b, b ∈ seen -> app_id b < app_id a) ->
    follow_defers_loop Scenario.fresh_defer Scenario.repr fuel
      Scenario.find_nothing seen (Some a) Scenario.foo = None.
Proof.
  induction fuel as [|fuel IH]; intros seen a Hseen; [reflexivity|].
  simpl. destruct (decide (a ∈ seen)) as [Hin|_].
  - apply Hseen in Hin. lia.
  - apply IH. intros b Hb. simpl.
    apply elem_of_union in Hb as [Hb|Hb].
    + apply elem_of_singleton in Hb. subst b. lia.
    + apply Hseen in Hb. lia.
Qed.

Lemma follow_defers_fresh_instances (fuel : nat) :
  follow_defers Scenario.fresh_defer Scenario.repr fuel Scenario.find_nothing
    (Some Scenario.app_a) Scenario.foo = None.
Proof.
  apply fresh_defer_never_ends. intros b Hb. now apply not_elem_of_empty in Hb.
Qed.

(** ** Links across mounts *)

Section LinkProperties.

Context (deferred_link_app : RegLookup -> App -> Obj -> option App).
Context (generic_path : RegLookup -> Obj -> option (string * Params)).
Context (generic_link_prefix : RegLookup -> Request -> string).
Context (repr : Obj -> string) (tilde_always_safe : bool).

Lemma mounted_link_loop_all app :
  forall result parameters frags,
    mount_infos generic_path app = map Some frags ->
    mounted_link_loop generic_path result parameters app =
    Some ((result ++ map fst frags)%list,
          merge_parameters (map snd frags) parameters).
Proof.
  induction app as [i c k|i c k p IH] using App_chain_ind;
    intros result parameters frags H; simpl in *.
  - destruct frags; [|discriminate]. simpl. now rewrite app_nil_r.
  - destruct frags as [|[path params] frags]; [discriminate|].
    simpl in H. injection H as Hgp Hrest. rewrite Hgp.
    rewrite (IH _ _ frags Hrest). simpl. now rewrite <- app_assoc.
Qed.

Lemma mounted_link_loop_broken app :
  forall result parameters,
    In None (mount_infos generic_path app) ->
    mounted_link_loop generic_path result parameters app = None.
Proof.
  induction app as [i c k|i c k p IH] using App_chain_ind;
    intros result parameters H; simpl in *.
  - contradiction.
  - destruct (generic_path (app_lookup p) (Mounted (MkApp i c k (Some p))))
      as [[path params]|]; [|reflexivity].
    destruct H as [H|H]; [discriminate|]. now apply IH.
Qed.

(** Either every mount above [app] gives a path, or one does not. *)
Lemma mount_infos_cases app :
  In None (mount_infos generic_path app) \/
  exists frags, mount_infos generic_path app = map Some frags.
Proof.
  induction (mount_infos generic_path app) as [|[x|] l IH].
  - right. now exists [].
  - destruct IH as [IH|[frags IH]].
    + left. now right.
    + right. exists (x :: frags). simpl. now rewrite IH.
  - left. now left.
Qed.

(** A parameter of the merged result comes from the mount nearest to
    the root that has it, and from the model's own otherwise. *)
Lemma merge_parameters_lookup (ps : list Params) (base : Params) (k : string) :
  merge_parameters ps base !! k =
  match first_some (fun p : Params => p !! k) (rev ps) with
  | Some v => Some v
  | None => base !! k
  end.
Proof.
  unfold merge_parameters. revert base.
  induction ps as [|p ps IH]; intros base; simpl; [reflexivity|].
  rewrite IH. clear IH.
  induction (rev ps) as [|q qs IHq]; simpl.
  - rewrite lookup_union. destruct (p !! k), (base !! k); reflexivity.
  - destruct (q !! k); [reflexivity|exact IHq].
Qed.

(** Leaving out the [app] argument is passing the application of the
    request. *)
Lemma Request_link_same_app fuel self obj name default :
  Request_link deferred_link_app generic_path generic_link_prefix repr
    tilde_always_safe fuel self obj name default SAME_APP
  = Request_link deferred_link_app generic_path generic_link_prefix repr
      tilde_always_safe fuel self obj name default
      (AppIs (Some (req_app self))).
Proof. now destruct obj. Qed.

(** C1, as amended.  For a model with a path in [app]: when every
    mount above [app] gives a path, the link is the fragments of the
    mounts from the root down followed by the path of the model, joined
    with [/] and stripped, with the parameters of the mounts merged in,
    and [Request.link] returns the URL of that path and those
    parameters.  When some mount gives no path, [link] returns [None]
    for [app], and what [Request.link] returns is decided by the
    applications the object is deferred to in turn: the URL of the link
    made by the first of them that can make one; the [LinkError] when
    the chain ends and none could; the circular defer [LinkError] when
    the chain comes back to an application it went through.  Within a
    finite set of applications one of the three happens. *)
Theorem link_across_mounts (obj : Obj) (app : App) (path : string)
    (parameters : Params) (self : Request) (name : string)
    (default : option string) :
  generic_path (app_lookup app) obj = Some (path, parameters) ->
  let request_link fuel :=
    Request_link deferred_link_app generic_path generic_link_prefix repr
      tilde_always_safe fuel self (Some obj) name default (AppIs (Some app)) in
  let made p ps :=
    (fst (link_prefix generic_link_prefix self),
     Ok (Some (_encode_link tilde_always_safe
                 (snd (link_prefix generic_link_prefix self)) p name
                 (map_to_list ps)))) in
  let find := fun app0 obj0 => link generic_path obj0 app0 in
  (forall frags,
     mount_infos generic_path app = map Some frags ->
     link generic_path obj app =
     Some (spec_link_path frags path,
           merge_parameters (map snd frags) parameters) /\
     forall fuel,
       1 <= fuel ->
       request_link fuel =
       Some (made (spec_link_path frags path)
               (merge_parameters (map snd frags) parameters))) /\
  (In None (mount_infos generic_path app) ->
   link generic_path obj app = None /\
   (forall fuel result,
      request_link fuel = Some result ->
      (exists n other p ps,
         defer_chain deferred_link_app (S n) (Some app) obj = Some other /\
         other <> app /\
         link generic_path obj other = Some (p, ps) /\
         nothing_before deferred_link_app find (Some app) obj (S n) /\
         result = made p ps) \/
      (result = (self, Raise (cannot_link repr obj)) /\
       exists n,
         defer_chain deferred_link_app n (Some app) obj = None /\
         nothing_before deferred_link_app find (Some app) obj n) \/
      (result = (self, Raise (circular_defer repr obj)) /\
       exists i n a,
         i < n /\
         defer_chain deferred_link_app n (Some app) obj = Some a /\
         defer_chain deferred_link_app i (Some app) obj = Some a /\
         nothing_before deferred_link_app find (Some app) obj n)) /\
   (forall U : gset App,
      app ∈ U ->
      (forall a b, a ∈ U ->
         deferred_link_app (app_lookup a) a obj = Some b -> b ∈ U) ->
      exists result,
        forall fuel, size U < fuel -> request_link fuel = Some result)).
Proof.
  intros Hpath request_link made find. split.
  - intros frags Hfrags.
    assert (Hlink : link generic_path obj app =
                    Some (spec_link_path frags path,
                          merge_parameters (map snd frags) parameters)).
    { unfold link, mounted_link. rewrite Hpath.
      rewrite (mounted_link_loop_all app _ _ frags Hfrags).
      unfold spec_link_path. rewrite rev_app_distr. reflexivity. }
    split; [exact Hlink|].
    intros fuel Hfuel. destruct fuel as [|fuel]; [lia|].
    subst request_link made. cbv beta.
    unfold Request_link, follow_defers. cbn [follow_defers_loop].
    destruct (decide (app ∈ (∅ : gset App))) as [Hin|_];
      [now apply not_elem_of_empty in Hin|].
    rewrite Hlink. unfold Request_encode_link.
    now destruct (link_prefix generic_link_prefix self).
  - intros Hbroken.
    assert (Hlink : link generic_path obj app = None).
    { unfold link, mounted_link. rewrite Hpath.
      now rewrite (mounted_link_loop_broken app _ _ Hbroken). }
    split; [exact Hlink|]. split.
    + intros fuel result H. subst request_link made. cbv beta in *.
      unfold Request_link in H.
      destruct (follow_defers deferred_link_app repr fuel
                  (fun app0 obj0 => link generic_path obj0 app0)
                  (Some app) obj) as [[[[[p ps]|] o]|e]|] eqn:Hwalk;
        try discriminate;
        apply follow_defers_outcome in Hwalk; simpl in Hwalk.
      * destruct o as [other|]; [|contradiction].
        destruct Hwalk as (n & Hn & Hfound & _ & Hclean).
        assert (Hne : other <> app) by (intros ->; congruence).
        destruct n as [|n]; [simpl in Hn; congruence|].
        left. exists n, other, p, ps.
        repeat (split; [assumption|]).
        unfold Request_encode_link in H.
        destruct (link_prefix generic_link_prefix self).
        now injection H as <-.
      * destruct Hwalk as (_ & n & Hn & Hclean).
        right. left. injection H as <-. eauto.
      * destruct Hwalk as (-> & Hloop).
        right. right. injection H as <-. auto.
    + intros U HU Hclosed.
      destruct (follow_defers_loop_ends deferred_link_app repr find obj U
                  Hclosed (S (size U)) ∅ (Some app)) as [r Hr].
      * set_solver.
      * intros a [= <-]. exact HU.
      * rewrite size_empty. lia.
      * assert (Hall : forall fuel, size U < fuel ->
                  follow_defers deferred_link_app repr fuel find
                    (Some app) obj = Some r).
        { intros fuel Hfuel. unfold follow_defers.
          eapply follow_defers_loop_mono; [|exact Hr]. lia. }
        subst request_link. cbv beta. unfold Request_link.
        destruct r as [[[[p ps]|] o]|e].
        -- destruct (Request_encode_link generic_link_prefix tilde_always_safe
                       self p name ps) as [self' url] eqn:Eu.
           exists (self', Ok (Some url)). intros fuel Hfuel.
           fold find. now rewrite (Hall fuel Hfuel), Eu.
        -- exists (self, Raise (cannot_link repr obj)). intros fuel Hfuel.
           fold find. now rewrite (Hall fuel Hfuel).
        -- exists (self, Raise e). intros fuel Hfuel.
           fold find. now rewrite (Hall fuel Hfuel).
Qed.

End LinkProperties.

(** The application [inner_app] mounted at [inner]: the model at
    [foo] is linked to as [inner/foo]. *)
Example nested_link_url :
  snd <$> Request_link Scenario.no_defer Scenario.nested_path
            Scenario.link_prefix Scenario.repr false 1
            (Scenario.request_in Scenario.inner_app "" "GET")
            (Some Scenario.foo) "" None SAME_APP
  = Some (Ok (Some "http://localhost/inner/foo")).
Proof. vm_compute. reflexivity. Qed.

Lemma link_across_mounts_witness :
  link Scenario.nested_path Scenario.foo Scenario.inner_app
  = Some ("inner/foo", ∅) /\
  Request_link Scenario.no_defer Scenario.nested_path Scenario.link_prefix
    Scenario.repr false 1 (Scenario.request_in Scenario.inner_app "" "GET")
    (Some Scenario.foo) "edit" None (AppIs (Some Scenario.inner_app))
  = Some (fst (link_prefix Scenario.link_prefix
                 (Scenario.request_in Scenario.inner_app "" "GET")),
          Ok (Some "http://localhost/inner/foo/edit")).
Proof.
  destruct (link_across_mounts Scenario.no_defer Scenario.nested_path
              Scenario.link_prefix Scenario.repr false Scenario.foo
              Scenario.inner_app "foo" ∅
              (Scenario.request_in Scenario.inner_app "" "GET") "edit" None
              eq_refl) as [Hall _].
  destruct (Hall [("inner", ∅)] eq_refl) as [Hlink Hurl].
  split; [exact Hlink|]. apply Hurl. lia.
Defined.

(** C1 as stated fails: a mount above the application gives no path,
    yet [Request.link] returns a URL, made by the application the
    object is deferred to. *)
Lemma link_broken_mount_counterexample :
  Scenario.broken_path (app_lookup Scenario.orphan_app) Scenario.foo
  = Some ("foo", ∅) /\
  In None (mount_infos Scenario.broken_path Scenario.orphan_app) /\
  snd <$> Request_link Scenario.defer_to_other Scenario.broken_path
            Scenario.link_prefix Scenario.repr false 2
            (Scenario.request_in Scenario.orphan_app "" "GET")
            (Some Scenario.foo) "" None SAME_APP
  = Some (Ok (Some "http://localhost/foo")).
Proof.
  split; [reflexivity|]. split; [left; reflexivity|]. vm_compute. reflexivity.
Qed.

(** ** Views: permission, internal views, and the application switch *)

Section ViewProperties.

Context (deferred_link_app : RegLookup -> App -> Obj -> option App).
Context (generic_identify : RegLookup -> Request -> option Identity).
Context (generic_verify_identity : RegLookup -> Identity -> bool).
Context (generic_permits : RegLookup -> Identity -> Obj -> Permission -> bool).
Context (generic_view_component : RegLookup -> Request -> Obj -> Component).
Context (generic_view_component_key_dict :
           RegLookup -> gmap string Key -> option View).
Context (repr : Obj -> string).

Lemma identity_keeps_lookup (request : Request) :
  req_lookup (fst (identity generic_identify generic_verify_identity request))
  = req_lookup request /\
  req_app (fst (identity generic_identify generic_verify_identity request))
  = req_app request.
Proof.
  unfold identity. destruct (identity_cache request); split; reflexivity.
Qed.

(** C4, as amended.  For a resolved view that is not internal and
    requires a permission the identity of the request does not have,
    [get_response] raises [HTTPForbidden] and no view function is
    called, whatever the view function is. *)
Theorem permission_denied_is_forbidden (request : Request) (obj : Obj)
    (view : View) (perm : Permission) :
  generic_view_component (req_lookup request) request obj = CView view ->
  internal view = false ->
  permission view = Some perm ->
  generic_permits (req_lookup request)
    (snd (identity generic_identify generic_verify_identity request))
    obj perm = false ->
  get_response generic_identify generic_verify_identity generic_permits
    generic_view_component request obj =
  (fst (identity generic_identify generic_verify_identity request), [],
   Raise HTTPForbidden).
Proof.
  intros Hview Hint Hperm Hdenied. unfold get_response.
  rewrite Hview, Hint, Hperm.
  pose proof (identity_keeps_lookup request) as [Hl _].
  destruct (identity generic_identify generic_verify_identity request)
    as [request' ident] eqn:E.
  simpl in *. rewrite Hl, Hdenied. reflexivity.
Qed.

(** An internal view is answered as not found before its permission is
    looked at. *)
Lemma internal_view_not_found (request : Request) (obj : Obj) (view : View) :
  generic_view_component (req_lookup request) request obj = CView view ->
  internal view = true ->
  get_response generic_identify generic_verify_identity generic_permits
    generic_view_component request obj = (request, [], Ok None).
Proof.
  intros Hview Hint. unfold get_response. now rewrite Hview, Hint.
Qed.

(** Whenever [Request.view] returns, the application and the lookup of
    the request are what they were before the call. *)
Lemma Request_view_restores_on_return fuel self obj default app predicates
    self' calls result :
  Request_view deferred_link_app generic_view_component_key_dict repr
    fuel self obj default app predicates = Some (self', calls, Ok result) ->
  req_app self' = req_app self /\ req_lookup self' = req_lookup self.
Proof.
  unfold Request_view. intros H.
  destruct app as [|[a|]]; try discriminate;
    match type of H with
    | context [follow_defers ?d ?r ?f ?g ?a ?o] =>
        destruct (follow_defers d r f g a o) as [[[[v|] [a'|]]|e]|]
    end; try discriminate;
    try (injection H as <- _ _; split; reflexivity);
    match type of H with
    | context [func ?v ?o ?s] => destruct (func v o s) as [s2 [c|e]]
    end; try discriminate; injection H as <- _ _; split; reflexivity.
Qed.

(** When the view function raises, the request is left as the view
    function left it: nothing is restored. *)
Lemma Request_view_raise fuel self obj default predicates app view s e :
  follow_defers deferred_link_app repr fuel
    (fun a _ => generic_view_component_key_dict (app_lookup a)
                  (<["model" := class_of obj]> predicates))
    (Some (req_app self)) obj = Some (Ok (Some view, Some app)) ->
  func view obj
    (set_lookup (set_app (set_implicit app self) app) (app_lookup app))
  = (s, Raise e) ->
  Request_view deferred_link_app generic_view_component_key_dict repr
    fuel self obj default SAME_APP predicates = Some (s, [view], Raise e).
Proof.
  intros Hfind Hraise. unfold Request_view. rewrite Hfind. simpl.
  now rewrite Hraise.
Qed.

(** [Request.view] calls the view registered under the key, internal
    or not, and returns what it returns. *)
Lemma Request_view_reaches fuel self obj default predicates view :
  generic_view_component_key_dict (app_lookup (req_app self))
    (<["model" := class_of obj]> predicates) = Some view ->
  Request_view deferred_link_app generic_view_component_key_dict repr
    (S fuel) self obj default SAME_APP predicates =
  let app := req_app self in
  match func view obj
          (set_lookup (set_app (set_implicit app self) app) (app_lookup app))
  with
  | (s, Ok result) =>
      Some (set_lookup (set_app (set_implicit app s) app) (req_lookup self),
            [view], Ok (Some result))
  | (s, Raise e) => Some (s, [view], Raise e)
  end.
Proof.
  intros Hfind. unfold Request_view, follow_defers. simpl.
  destruct (decide (req_app self ∈ (∅ : gset App))) as [Hin|_];
    [now apply not_elem_of_empty in Hin|].
  rewrite Hfind. reflexivity.
Qed.

(** C6.  A view registered as internal, resolved for a request, gives
    no response and is not called: the outcome of [name_not_found], the
    fallback for a view name that is not registered.  [Request.view]
    with the key of the view calls its function and returns what it
    returns. *)
Theorem internal_view_only_from_within (request : Request) (obj : Obj)
    (view : View) :
  generic_view_component (req_lookup request) request obj = CView view ->
  internal view = true ->
  get_response generic_identify generic_verify_identity generic_permits
    generic_view_component request obj
  = (request, [], Ok None) /\
  (forall unregistered : RegLookup -> Request -> Obj -> Component,
     unregistered (req_lookup request) request obj = CFunc name_not_found ->
     get_response generic_identify generic_verify_identity generic_permits
       unregistered request obj
     = get_response generic_identify generic_verify_identity generic_permits
         generic_view_component request obj) /\
  (forall fuel default predicates,
     generic_view_component_key_dict (app_lookup (req_app request))
       (<["model" := class_of obj]> predicates) = Some view ->
     Request_view deferred_link_app generic_view_component_key_dict repr
       (S fuel) request obj default SAME_APP predicates =
     let app := req_app request in
     match func view obj
             (set_lookup (set_app (set_implicit app request) app)
                (app_lookup app))
     with
     | (s, Ok result) =>
         Some (set_lookup (set_app (set_implicit app s) app)
                 (req_lookup request),
               [view], Ok (Some result))
     | (s, Raise e) => Some (s, [view], Raise e)
     end).
Proof.
  intros Hview Hint.
  rewrite (internal_view_not_found request obj view Hview Hint).
  split; [reflexivity|]. split.
  - intros unregistered Hname. unfold get_response. now rewrite Hname.
  - intros fuel default predicates Hkey.
    now apply Request_view_reaches.
Qed.

End ViewProperties.

(** C3 fails on the code.  The view of [foo] is found in [app_b],
    which [app_a] defers to, and raises: the request is left with
    [app_b] as its application and the lookup of [app_b], not with
    those it had before the call. *)
Theorem Request_view_raise_not_restored :
  let self := Scenario.request_in Scenario.app_a "" "GET" in
  exists self',
    Request_view Scenario.cyclic_defer Scenario.views_of_b Scenario.repr 2
      self Scenario.foo None SAME_APP ∅
    = Some (self', [Scenario.failing_view], Raise (ViewError "boom")) /\
    req_app self' = Scenario.app_b /\ req_lookup self' = "b" /\
    req_app self' <> req_app self /\ req_lookup self' <> req_lookup self.
Proof.
  eexists. split; [reflexivity|]. repeat split; discriminate.
Qed.

Lemma permission_denied_is_forbidden_witness :
  get_response Scenario.no_identify Scenario.verify_all
    Scenario.has_permission
    (fun _ _ _ => CView (Scenario.hello_view (Some "EditPermission") false))
    (Scenario.request_in Scenario.outer_app "" "GET") Scenario.foo
  = (fst (identity Scenario.no_identify Scenario.verify_all
            (Scenario.request_in Scenario.outer_app "" "GET")), [],
     Raise HTTPForbidden).
Proof.
  apply (permission_denied_is_forbidden Scenario.no_identify
           Scenario.verify_all Scenario.has_permission
           (fun _ _ _ => CView (Scenario.hello_view (Some "EditPermission") false))
           (Scenario.request_in Scenario.outer_app "" "GET") Scenario.foo
           (Scenario.hello_view (Some "EditPermission") false)
           "EditPermission");
    reflexivity.
Defined.

(** C4 as stated fails: a resolved view that requires a permission the
    identity does not have, and that is internal, is answered with
    [None] (not found), not with [HTTPForbidden]. *)
Lemma permission_internal_counterexample :
  let view := Scenario.hello_view (Some "EditPermission") true in
  let request := Scenario.request_in Scenario.outer_app "" "GET" in
  permission view = Some "EditPermission" /\
  Scenario.has_permission (req_lookup request)
    (snd (identity Scenario.no_identify Scenario.verify_all request))
    Scenario.foo "EditPermission" = false /\
  get_response Scenario.no_identify Scenario.verify_all
    Scenario.has_permission (fun _ _ _ => CView view) request Scenario.foo
  = (request, [], Ok None) /\
  snd (get_response Scenario.no_identify Scenario.verify_all
         Scenario.has_permission (fun _ _ _ => CView view) request
         Scenario.foo)
  <> Raise HTTPForbidden.
Proof.
  repeat split; try reflexivity. discriminate.
Qed.

(** ** Dispatch: the order of the axes and their fallbacks *)

Lemma view_predicates_order :
  view_predicates = [model_axis; name_axis; request_method_axis].
Proof. reflexivity. Qed.

Lemma filter_empty {A : Type} (P : A -> Prop) `{forall x, Decision (P x)}
    (l : list A) :
  (forall x, x ∈ l -> ~ P x) -> filter P l = [].
Proof.
  intros Hall. destruct (filter P l) as [|x xs] eqn:E; [reflexivity|].
  assert (Hx : x ∈ filter P l) by (rewrite E; left).
  apply list_elem_of_filter in Hx. destruct Hx as [HP Hin].
  now destruct (Hall x Hin).
Qed.

Lemma filter_inhabited {A : Type} (P : A -> Prop) `{forall x, Decision (P x)}
    (l : list A) (x : A) :
  x ∈ l -> P x -> filter P l <> [].
Proof.
  intros Hin HP E.
  assert (Hx : x ∈ filter P l) by (apply list_elem_of_filter; auto).
  rewrite E in Hx. inversion Hx.
Qed.

Lemma filter_all {A : Type} (P : A -> Prop) `{forall x, Decision (P x)}
    (l : list A) :
  (forall x, x ∈ l -> P x) -> filter P l = l.
Proof.
  induction l as [|x l IH]; intros Hall; [reflexivity|].
  rewrite filter_cons_True by (apply Hall; left).
  f_equal. apply IH. intros y Hy. apply Hall. now right.
Qed.

Lemma first_inhabited_single {A : Type} (l : list A) :
  first_inhabited [l] = l.
Proof. now destruct l. Qed.

Lemma first_inhabited_cons {A : Type} (l : list A) (rest : list (list A)) :
  l <> [] -> first_inhabited (l :: rest) = l.
Proof. now destruct l. Qed.

Lemma existsb_filter {A : Type} (P : A -> Prop) `{forall x, Decision (P x)}
    (l : list A) :
  if existsb (fun x => bool_decide (P x)) l then filter P l <> []
  else filter P l = [].
Proof.
  induction l as [|x l IH]; simpl; [reflexivity|].
  destruct (decide (P x)) as [HP|HP].
  - rewrite bool_decide_eq_true_2 by exact HP. simpl.
    now rewrite filter_cons_True by exact HP.
  - rewrite bool_decide_eq_false_2 by exact HP. simpl.
    now rewrite filter_cons_False by exact HP.
Qed.

Section DispatchProperties.

Context (mro : Class -> list Class).
Context (generic_identify : RegLookup -> Request -> option Identity).
Context (generic_verify_identity : RegLookup -> Identity -> bool).
Context (generic_permits : RegLookup -> Identity -> Obj -> Permission -> bool).
Context (view_registry : RegLookup -> list Registration).

Lemma model_exact cls r :
  axis_exact model_axis cls r = true <-> registered_class r = Some cls.
Proof.
  unfold axis_exact, axis_key, registered_class. simpl.
  rewrite bool_decide_eq_true. now destruct (reg_key r !! "model").
Qed.

Lemma name_exact name r :
  axis_exact name_axis name r = true <-> registered_name r = name.
Proof.
  unfold axis_exact, axis_key, registered_name. simpl.
  rewrite bool_decide_eq_true.
  destruct (reg_key r !! "name"); simpl;
    (split; [intros [= ->]|intros ->]; reflexivity).
Qed.

Lemma method_exact meth r :
  axis_exact request_method_axis meth r = true <-> registered_method r = meth.
Proof.
  unfold axis_exact, axis_key, registered_method. simpl.
  rewrite bool_decide_eq_true.
  destruct (reg_key r !! "request_method"); simpl;
    (split; [intros [= ->]|intros ->]; reflexivity).
Qed.

(** The model axis keeps the views registered for the nearest
    registered class. *)
Lemma model_axis_select cls registry :
  axis_select mro model_axis (Some cls) registry =
  match nearest_registered mro registry cls with
  | Some c => filter (fun r => registered_class r = Some c) registry
  | None => []
  end.
Proof.
  unfold axis_select, nearest_registered. simpl.
  induction (mro cls) as [|c l IH]; [reflexivity|].
  simpl.
  rewrite (list_filter_iff _ (fun r => registered_class r = Some c))
    by (intros r; apply model_exact).
  pose proof (existsb_filter (fun r => registered_class r = Some c) registry)
    as He.
  destruct (existsb _ registry).
  - now apply first_inhabited_cons.
  - rewrite He. exact IH.
Qed.

Lemma nearest_registered_inhabited cls c registry :
  nearest_registered mro registry cls = Some c ->
  filter (fun r => registered_class r = Some c) registry <> [].
Proof.
  unfold nearest_registered. intros H. apply find_some in H as [_ H].
  cbv beta in H.
  pose proof (existsb_filter (fun r => registered_class r = Some c) registry)
    as He.
  destruct (existsb _ registry); [exact He|discriminate].
Qed.

Lemma key_axis_select (p : Predicate) (k : Key) cands :
  pred_index p = KeyIndex ->
  axis_select mro p (Some k) cands
  = filter (fun r => axis_exact p k r = true) cands.
Proof.
  intros Hi. unfold axis_select, key_permutations. rewrite Hi.
  apply first_inhabited_single.
Qed.

(** What the resolver answers once the model axis has kept the views
    of the class [cls]. *)
Lemma component_after_model registry request obj cls :
  nearest_registered mro registry (class_of obj) = Some cls ->
  component mro registry request obj =
  match filter (fun r => registered_name r = view_name request)
          (filter (fun r => registered_class r = Some cls) registry) with
  | [] => CFunc name_not_found
  | named =>
      match filter (fun r => registered_method r = method request) named with
      | [] => CFunc method_not_allowed
      | cs =>
          match most_specific mro view_predicates
                  (fun p => Some (get_key p request obj)) cs with
          | Some v => CView v
          | None => CNone
          end
      end
  end.
Proof.
  intros Hn. unfold component. rewrite view_predicates_order.
  cbn [narrow]. cbn [get_key model_axis]. unfold obj_predicate.
  rewrite model_axis_select, Hn.
  pose proof (nearest_registered_inhabited _ _ _ Hn) as Hne.
  destruct (filter (fun r => registered_class r = Some cls) registry)
    as [|m ms] eqn:Em; [contradiction|].
  rewrite key_axis_select by reflexivity.
  cbn [get_key name_axis]. unfold name_predicate.
  rewrite (list_filter_iff _ (fun r => registered_name r = view_name request))
    by (intros r; apply name_exact).
  destruct (filter (fun r => registered_name r = view_name request) (m :: ms))
    as [|n ns] eqn:En; [reflexivity|].
  rewrite key_axis_select by reflexivity.
  cbn [get_key request_method_axis]. unfold request_method_predicate.
  rewrite (list_filter_iff _
             (fun r => registered_method r = method request))
    by (intros r; apply method_exact).
  destruct (filter (fun r => registered_method r = method request) (n :: ns))
    as [|c cs] eqn:Ec; reflexivity.
Qed.

Lemma views_for_filters registry cls name meth :
  views_for registry cls name meth =
  filter (fun r => registered_method r = meth)
    (filter (fun r => registered_name r = name)
       (filter (fun r => registered_class r = Some cls) registry)).
Proof.
  unfold views_for. rewrite !list_filter_filter.
  apply list_filter_iff. intros r. tauto.
Qed.

Lemma most_specific_cons p ps key cands :
  most_specific mro (p :: ps) key cands =
  first_some
    (fun k => most_specific mro ps key
                (filter (fun r => axis_exact p k r = true) cands))
    (key_permutations mro p (key p)).
Proof. reflexivity. Qed.

Lemma most_specific_empty ps key :
  Forall (fun p => pred_index p = KeyIndex) ps ->
  most_specific mro ps key [] = None.
Proof.
  induction 1 as [|p ps Hp _ IH]; [reflexivity|].
  rewrite most_specific_cons. unfold key_permutations. rewrite Hp.
  destruct (key p); [|reflexivity]. cbn [first_some].
  now rewrite filter_nil, IH.
Qed.

(** Among views all registered for the nearest registered class, the
    name and the request method of the call, the first is the
    handler. *)
Lemma most_specific_first registry request obj cls r cs :
  nearest_registered mro registry (class_of obj) = Some cls ->
  views_for registry cls (view_name request) (method request) = r :: cs ->
  most_specific mro view_predicates (fun p => Some (get_key p request obj))
    (r :: cs) = Some (reg_view r).
Proof.
  intros Hn Hv. rewrite view_predicates_order.
  assert (Hall : forall x, x ∈ r :: cs ->
            x ∈ registry /\ registered_class x = Some cls /\
            registered_name x = view_name request /\
            registered_method x = method request).
  { intros x Hx. rewrite <- Hv in Hx. unfold views_for in Hx.
    apply list_elem_of_filter in Hx. tauto. }
  set (key := fun p => Some (get_key p request obj)).
  assert (Hrest : most_specific mro [name_axis; request_method_axis] key
                    (r :: cs) = Some (reg_view r)).
  { rewrite most_specific_cons.
    change (key_permutations mro name_axis (key name_axis))
      with [view_name request].
    cbn [first_some].
    rewrite (filter_all (fun x => axis_exact name_axis (view_name request) x
                                  = true) (r :: cs))
      by (intros x Hx; apply name_exact; now apply Hall).
    rewrite most_specific_cons.
    change (key_permutations mro request_method_axis
              (key request_method_axis))
      with [method request].
    cbn [first_some].
    rewrite (filter_all (fun x => axis_exact request_method_axis
                                    (method request) x = true) (r :: cs))
      by (intros x Hx; apply method_exact; now apply Hall).
    reflexivity. }
  rewrite most_specific_cons.
  change (key_permutations mro model_axis (key model_axis))
    with (mro (class_of obj)).
  unfold nearest_registered in Hn.
  induction (mro (class_of obj)) as [|c l IH]; [discriminate|].
  cbn [List.find] in Hn. cbn [first_some].
  destruct (existsb _ registry) eqn:He.
  - injection Hn as ->.
    rewrite (filter_all (fun x => axis_exact model_axis cls x = true)
               (r :: cs))
      by (intros x Hx; apply model_exact; now apply Hall).
    now rewrite Hrest.
  - rewrite (filter_empty (fun x => axis_exact model_axis c x = true)
               (r :: cs)).
    + rewrite most_specific_empty by (repeat constructor). now apply IH.
    + intros x Hx Hc. apply model_exact in Hc.
      pose proof (existsb_filter (fun y => registered_class y = Some c)
                    registry) as Hf.
      cbv beta in Hf. rewrite He in Hf.
      assert (Hin : x ∈ filter (fun y => registered_class y = Some c)
                          registry).
      { apply list_elem_of_filter. split; [exact Hc|]. now apply Hall. }
      rewrite Hf in Hin. inversion Hin.
Qed.

(** C5.  The axes are resolved in the order model, name, request
    method, and the first axis that keeps no view decides.  When no
    class of the hierarchy of the object has a view, the outcome is
    [obj_not_found] and no response (not found).  Otherwise the model
    axis keeps the views of the nearest class that has any: when none
    of them has the view name of the request the outcome is
    [name_not_found] and no response, whatever the request method;
    when some have the name and none of those the request method of the
    request, [HTTPMethodNotAllowed] is raised; and when some have both,
    the first of them is the handler. *)
Theorem dispatch_fallback_order (request : Request) (obj : Obj) :
  let registry := view_registry (req_lookup request) in
  let response :=
    get_response generic_identify generic_verify_identity generic_permits
      (fun lookup => component mro (view_registry lookup)) request obj in
  map pred_name view_predicates = ["model"; "name"; "request_method"] /\
  (nearest_registered mro registry (class_of obj) = None ->
   component mro registry request obj = CFunc obj_not_found /\
   response = (request, [], Ok None)) /\
  (forall cls,
     nearest_registered mro registry (class_of obj) = Some cls ->
     ((forall r, r ∈ registry -> registered_class r = Some cls ->
                 registered_name r <> view_name request) ->
      component mro registry request obj = CFunc name_not_found /\
      response = (request, [], Ok None)) /\
     ((exists r, r ∈ registry /\ registered_class r = Some cls /\
                 registered_name r = view_name request) ->
      (forall r, r ∈ registry -> registered_class r = Some cls ->
                 registered_name r = view_name request ->
                 registered_method r <> method request) ->
      component mro registry request obj = CFunc method_not_allowed /\
      response = (request, [], Raise HTTPMethodNotAllowed)) /\
     (forall r,
        head (views_for registry cls (view_name request) (method request))
        = Some r ->
        component mro registry request obj = CView (reg_view r))).
Proof.
  intros registry response. split; [reflexivity|].
  subst response. unfold get_response. fold registry. split; [|intros cls Hn].
  - intros Hn.
    assert (Hc : component mro registry request obj = CFunc obj_not_found).
    { unfold component. rewrite view_predicates_order. cbn [narrow].
      cbn [get_key model_axis]. unfold obj_predicate.
      now rewrite model_axis_select, Hn. }
    now rewrite Hc.
  - rewrite (component_after_model registry request obj cls Hn).
    split; [|split].
    + intros Hname.
      rewrite (filter_empty (fun r => registered_name r = view_name request)).
      * now split.
      * intros r Hr. apply list_elem_of_filter in Hr as [Hcls Hin].
        now apply Hname.
    + intros (r & Hin & Hcls & Hname) Hmeth.
      destruct (filter (fun r => registered_name r = view_name request)
                  (filter (fun r => registered_class r = Some cls) registry))
        as [|n ns] eqn:En.
      * exfalso. revert En. apply filter_inhabited with r; [|exact Hname].
        apply list_elem_of_filter. auto.
      * rewrite (filter_empty
                   (fun r => registered_method r = method request)).
        -- now split.
        -- intros x Hx. rewrite <- En in Hx.
           apply list_elem_of_filter in Hx as [Hxn Hx].
           apply list_elem_of_filter in Hx as [Hxc Hxin].
           now apply Hmeth.
    + intros r Hhead.
      pose proof (views_for_filters registry cls (view_name request)
                    (method request)) as Hv.
      destruct (filter (fun r => registered_name r = view_name request)
                  (filter (fun r => registered_class r = Some cls) registry))
        as [|n ns] eqn:En.
      * rewrite Hv in Hhead. discriminate.
      * destruct (filter (fun r => registered_method r = method request)
                    (n :: ns)) as [|c cs] eqn:Ec.
        -- rewrite Hv in Hhead. discriminate.
        -- rewrite Hv in Hhead. injection Hhead as ->.
           now rewrite (most_specific_first registry request obj cls r cs
                          Hn Hv).
Qed.

End DispatchProperties.

(** Case analysis on the registrations of a concrete registry. *)
Ltac each_registration H :=
  repeat (apply elem_of_cons in H as [->|H]);
  try (now apply elem_of_nil in H).

Lemma dispatch_fallback_order_witness :
  let response registry mro name meth obj :=
    get_response Scenario.no_identify Scenario.verify_all
      Scenario.has_permission
      (fun lookup => component mro registry)
      (Scenario.request_in Scenario.outer_app name meth) obj in
  response Scenario.internal_registry Scenario.mro "" "GET" Scenario.foo
  = (Scenario.request_in Scenario.outer_app "" "GET", [], Ok None) /\
  response Scenario.internal_registry Scenario.mro "nothing" "POST"
    Scenario.root
  = (Scenario.request_in Scenario.outer_app "nothing" "POST", [], Ok None) /\
  response Scenario.internal_registry Scenario.mro "" "POST" Scenario.root
  = (Scenario.request_in Scenario.outer_app "" "POST", [],
     Raise HTTPMethodNotAllowed) /\
  response Fixture.inherited_registry Fixture.sub_mro "edit" "GET"
    Fixture.sub
  = (Scenario.request_in Scenario.outer_app "edit" "GET", [], Ok None) /\
  component Fixture.sub_mro Fixture.inherited_registry
    (Scenario.request_in Scenario.outer_app "" "GET") Fixture.sub
  = CView Scenario.root_default.
Proof.
  intros response. subst response. cbv beta. split; [|split; [|split; [|split]]].
  - destruct (dispatch_fallback_order Scenario.mro Scenario.no_identify
                Scenario.verify_all Scenario.has_permission
                (fun _ => Scenario.internal_registry)
                (Scenario.request_in Scenario.outer_app "" "GET")
                Scenario.foo) as (_ & Hmodel & _).
    apply Hmodel. reflexivity.
  - destruct (dispatch_fallback_order Scenario.mro Scenario.no_identify
                Scenario.verify_all Scenario.has_permission
                (fun _ => Scenario.internal_registry)
                (Scenario.request_in Scenario.outer_app "nothing" "POST")
                Scenario.root) as (_ & _ & Hcls).
    destruct (Hcls "Root" eq_refl) as (Hname & _).
    apply Hname.
    intros r Hr _. each_registration Hr; vm_compute; discriminate.
  - destruct (dispatch_fallback_order Scenario.mro Scenario.no_identify
                Scenario.verify_all Scenario.has_permission
                (fun _ => Scenario.internal_registry)
                (Scenario.request_in Scenario.outer_app "" "POST")
                Scenario.root) as (_ & _ & Hcls).
    destruct (Hcls "Root" eq_refl) as (_ & Hmethod & _).
    apply Hmethod.
    + eexists. split; [left|]. split; reflexivity.
    + intros r Hr _ _. each_registration Hr; vm_compute; discriminate.
  - destruct (dispatch_fallback_order Fixture.sub_mro Scenario.no_identify
                Scenario.verify_all Scenario.has_permission
                (fun _ => Fixture.inherited_registry)
                (Scenario.request_in Scenario.outer_app "edit" "GET")
                Fixture.sub) as (_ & _ & Hcls).
    destruct (Hcls "Sub" eq_refl) as (Hname & _).
    apply Hname.
    intros r Hr Hc.
    each_registration Hr;
      first [vm_compute; discriminate | vm_compute in Hc; discriminate].
  - destruct (dispatch_fallback_order Fixture.sub_mro Scenario.no_identify
                Scenario.verify_all Scenario.has_permission
                (fun _ => Fixture.inherited_registry)
                (Scenario.request_in Scenario.outer_app "" "GET")
                Fixture.sub) as (_ & _ & Hcls).
    destruct (Hcls "Sub" eq_refl) as (_ & _ & Hview).
    exact (Hview _ eq_refl).
Defined.

(** [test_internal.py]: the internal view is not found from outside,
    as with the registry [public] that does not have it, and is
    reached through [request.view(self, name='internal')]. *)
Lemma internal_view_only_from_within_witness :
  let request := Scenario.request_in Scenario.outer_app "internal" "GET" in
  let public := [MkRegistration {[ "model" := "Root" ]} Scenario.root_default] in
  get_response Scenario.no_identify Scenario.verify_all
    Scenario.has_permission
    (fun lookup => component Scenario.mro (Scenario.views lookup))
    request Scenario.root
  = (request, [], Ok None) /\
  get_response Scenario.no_identify Scenario.verify_all
    Scenario.has_permission (fun _ => component Scenario.mro public)
    request Scenario.root
  = get_response Scenario.no_identify Scenario.verify_all
      Scenario.has_permission
      (fun lookup => component Scenario.mro (Scenario.views lookup))
      request Scenario.root /\
  Request_view Scenario.no_defer
    (fun lookup => component_key_dict Scenario.mro (Scenario.views lookup))
    Scenario.repr 1 request Scenario.root None SAME_APP
    {[ "name" := "internal" ]}
  = Some (set_implicit Scenario.outer_app request, [Scenario.root_internal],
          Ok (Some (ContentValue "Internal!"))).
Proof.
  intros request public.
  destruct (internal_view_only_from_within Scenario.no_defer
              Scenario.no_identify Scenario.verify_all
              Scenario.has_permission
              (fun lookup => component Scenario.mro (Scenario.views lookup))
              (fun lookup =>
                 component_key_dict Scenario.mro (Scenario.views lookup))
              Scenario.repr request Scenario.root Scenario.root_internal
              eq_refl eq_refl) as (Hext & Hname & Hview).
  split; [exact Hext|]. split.
  - exact (Hname (fun _ => component Scenario.mro public) eq_refl).
  - exact (Hview 0 None {[ "name" := "internal" ]} eq_refl).
Defined.

(** ** Consuming a path *)

Lemma set_unconsumed_same (request : Request) :
  set_unconsumed request (unconsumed request) = request.
Proof. now destruct request. Qed.

Section ConsumeProperties.

Context (generic_traject : RegLookup -> Obj -> option Traject).
Context (generic_context : RegLookup -> Obj -> option Variables).

(** [traject_consume] step by step, for a traject and what its
    [consume] returns. *)
Lemma traject_consume_unfold request model lookup traject held value stack tv :
  generic_traject lookup model = Some traject ->
  consume traject (unconsumed request) = (held, (value, stack, tv)) ->
  traject_consume generic_traject generic_context request model lookup =
  let request' := set_unconsumed request held in
  match value with
  | None => (request', None)
  | Some route =>
      match generic_context lookup model with
      | None => (request', None)
      | Some context =>
          match get_model route
                  (consume_variables request' model route context tv) with
          | None => (request', None)
          | Some next_model => (set_unconsumed request' stack, Some next_model)
          end
      end
  end.
Proof.
  intros Ht Hc. unfold traject_consume. rewrite Ht, Hc. reflexivity.
Qed.

(** C7.  When the traject matches a route and the model factory
    returns no model, [traject_consume] returns [None] and leaves the
    request as it does when the traject matches nothing. *)
Theorem factory_none_is_non_match (request : Request) (model : Obj)
    (lookup : RegLookup) (traject : Traject) (held stack : list string)
    (route : Route) (tv : Variables) :
  generic_traject lookup model = Some traject ->
  consume traject (unconsumed request) = (held, (Some route, stack, tv)) ->
  (forall context,
     generic_context lookup model = Some context ->
     get_model route
       (consume_variables (set_unconsumed request held) model route
          context tv) = None) ->
  snd (traject_consume generic_traject generic_context request model lookup)
  = None /\
  traject_consume generic_traject generic_context request model lookup
  = traject_consume (fun _ _ => Some (no_match traject)) generic_context
      request model lookup.
Proof.
  intros Ht Hc Hnone.
  rewrite (traject_consume_unfold request model lookup traject held
             (Some route) stack tv Ht Hc).
  assert (Hnm :
    traject_consume (fun _ _ => Some (no_match traject)) generic_context
      request model lookup = (set_unconsumed request held, None)).
  { unfold traject_consume, no_match. simpl. now rewrite Hc. }
  rewrite Hnm. simpl. destruct (generic_context lookup model) as [context|];
    [|split; reflexivity].
  rewrite (Hnone context eq_refl). split; reflexivity.
Qed.

(** C10.  With a traject whose [consume] leaves the list it is called
    with as it was, every way [traject_consume] fails returns [None]
    with the request unchanged, and [request.unconsumed] becomes the
    remaining stack exactly when a model is returned. *)
Theorem traject_consume_atomic (request : Request) (model : Obj)
    (lookup : RegLookup) :
  (forall traject,
     generic_traject lookup model = Some traject ->
     fst (consume traject (unconsumed request)) = unconsumed request) ->
  let outcome :=
    traject_consume generic_traject generic_context request model lookup in
  (generic_traject lookup model = None -> outcome = (request, None)) /\
  (forall traject,
     generic_traject lookup model = Some traject ->
     match snd (consume traject (unconsumed request)) with
     | (None, _, _) => outcome = (request, None)
     | (Some route, stack, tv) =>
         match generic_context lookup model with
         | None => outcome = (request, None)
         | Some context =>
             match get_model route
                     (consume_variables request model route context tv) with
             | None => outcome = (request, None)
             | Some next_model =>
                 outcome = (set_unconsumed request stack, Some next_model)
             end
         end
     end) /\
  (snd outcome = None -> fst outcome = request).
Proof.
  intros Hpure outcome.
  assert (Hno : generic_traject lookup model = None ->
                outcome = (request, None)).
  { intros Hnone. subst outcome. unfold traject_consume.
    now rewrite Hnone. }
  assert (Hsome : forall traject,
    generic_traject lookup model = Some traject ->
    match snd (consume traject (unconsumed request)) with
    | (None, _, _) => outcome = (request, None)
    | (Some route, stack, tv) =>
        match generic_context lookup model with
        | None => outcome = (request, None)
        | Some context =>
            match get_model route
                    (consume_variables request model route context tv) with
            | None => outcome = (request, None)
            | Some next_model =>
                outcome = (set_unconsumed request stack, Some next_model)
            end
        end
    end).
  { intros traject Ht. specialize (Hpure traject Ht).
    destruct (consume traject (unconsumed request))
      as [held [[value stack] tv]] eqn:Hc.
    simpl in Hpure. subst held. subst outcome.
    rewrite (traject_consume_unfold request model lookup traject _ value
               stack tv Ht Hc).
    cbv zeta. rewrite set_unconsumed_same. simpl.
    destruct value as [route|]; [|reflexivity].
    destruct (generic_context lookup model) as [context|]; [|reflexivity].
    destruct (get_model route _); reflexivity. }
  split; [exact Hno|]. split; [exact Hsome|].
  destruct (generic_traject lookup model) as [traject|] eqn:Ht.
  - specialize (Hsome traject eq_refl).
    destruct (snd (consume traject (unconsumed request)))
      as [[[route|] stack] tv].
    + destruct (generic_context lookup model) as [context|].
      * destruct (get_model route _); rewrite Hsome; [discriminate|reflexivity].
      * now rewrite Hsome.
    + now rewrite Hsome.
  - now rewrite (Hno eq_refl).
Qed.

(** The proviso of C10 is needed: a [consume] that pops the list it is
    called with leaves [request.unconsumed] changed when the factory
    then finds no model. *)
Lemma consume_in_place_not_atomic :
  let popping := MkTraject (fun stack =>
    (tail stack, snd (consume Scenario.id_traject stack))) in
  traject_consume (fun _ _ => Some popping) Scenario.empty_context
    (Scenario.request_for ["missing"; "b"]) (Mounted Scenario.outer_app)
    "outer"
  = (Scenario.request_for ["b"], None).
Proof. reflexivity. Qed.

End ConsumeProperties.

Lemma factory_none_is_non_match_witness :
  let request := Scenario.request_for ["missing"; "b"] in
  snd (traject_consume Scenario.app_traject Scenario.empty_context request
         (Mounted Scenario.outer_app) "outer") = None /\
  traject_consume Scenario.app_traject Scenario.empty_context request
    (Mounted Scenario.outer_app) "outer"
  = traject_consume (fun _ _ => Some (no_match Scenario.id_traject))
      Scenario.empty_context request (Mounted Scenario.outer_app) "outer".
Proof.
  intros request.
  apply (factory_none_is_non_match Scenario.app_traject
           Scenario.empty_context request (Mounted Scenario.outer_app)
           "outer" Scenario.id_traject ["missing"; "b"] ["b"]
           Scenario.model_route {[ "id" := VStr "missing" ]} eq_refl eq_refl).
  intros context [= <-]. vm_compute. reflexivity.
Defined.

Lemma traject_consume_atomic_witness :
  traject_consume Scenario.app_traject Scenario.empty_context
    (Scenario.request_for ["missing"; "b"]) (Mounted Scenario.outer_app)
    "outer"
  = (Scenario.request_for ["missing"; "b"], None) /\
  traject_consume Scenario.app_traject Scenario.empty_context
    (Scenario.request_for ["a"; "b"]) (Mounted Scenario.outer_app) "outer"
  = (Scenario.request_for ["b"], Some (Model "Model" "a")).
Proof.
  split.
  - destruct (traject_consume_atomic Scenario.app_traject
                Scenario.empty_context
                (Scenario.request_for ["missing"; "b"])
                (Mounted Scenario.outer_app) "outer") as (_ & Hsome & _).
    + intros traject [= <-]. reflexivity.
    + exact (Hsome Scenario.id_traject eq_refl).
  - destruct (traject_consume_atomic Scenario.app_traject
                Scenario.empty_context (Scenario.request_for ["a"; "b"])
                (Mounted Scenario.outer_app) "outer") as (_ & Hsome & _).
    + intros traject [= <-]. reflexivity.
    + exact (Hsome Scenario.id_traject eq_refl).
Defined.

(** ** Quoting: the tilde *)

Lemma prefix_cons a p b s :
  String.prefix (String a p) (String b s) = Ascii.eqb a b && String.prefix p s.
Proof.
  simpl. destruct (ascii_dec a b) as [->|Hne].
  - now rewrite Ascii.eqb_refl.
  - apply Ascii.eqb_neq in Hne. now rewrite Hne.
Qed.

Lemma prefix_empty_l s : String.prefix "" s = true.
Proof. now destruct s. Qed.

Lemma contains_cons pat c s :
  contains pat (String c s) =
  String.prefix pat (String c s) || contains pat s.
Proof. reflexivity. Qed.

(** *** [replace] leaves no occurrence of [%7E] *)

Lemma replace_from_skip old new k c s :
  replace_from old new (S k) (String c s) = replace_from old new k s.
Proof. reflexivity. Qed.

Lemma replace_from_step c s :
  replace_from "%7E" "~" 0 (String c s) =
  if String.prefix "%7E" (String c s)
  then String "~" (replace_from "%7E" "~" 2 s)
  else String c (replace_from "%7E" "~" 0 s).
Proof. reflexivity. Qed.

Lemma replaced_starts_E s :
  String.prefix "E" (replace_from "%7E" "~" 0 s) = true ->
  String.prefix "E" s = true.
Proof.
  destruct s as [|c s]; [discriminate|]. rewrite replace_from_step.
  destruct (String.prefix "%7E" (String c s)).
  - rewrite prefix_cons. discriminate.
  - rewrite !prefix_cons, !prefix_empty_l. auto.
Qed.

Lemma replaced_starts_7E s :
  String.prefix "7E" (replace_from "%7E" "~" 0 s) = true ->
  String.prefix "7E" s = true.
Proof.
  destruct s as [|c s]; [discriminate|]. rewrite replace_from_step.
  destruct (String.prefix "%7E" (String c s)).
  - rewrite prefix_cons. discriminate.
  - rewrite !prefix_cons. intros H. apply andb_prop in H as [Hc HE].
    rewrite Hc. now apply replaced_starts_E.
Qed.

Lemma replace_from_clean s :
  forall k, (k <= 2)%nat ->
    contains "%7E" (replace_from "%7E" "~" k s) = false.
Proof.
  induction s as [|c s IH]; intros k Hk.
  - now destruct k.
  - destruct k as [|k].
    + rewrite replace_from_step.
      destruct (String.prefix "%7E" (String c s)) eqn:Hp.
      * rewrite contains_cons, prefix_cons. simpl andb. now apply IH.
      * rewrite contains_cons, (IH 0%nat) by lia. rewrite orb_false_r.
        rewrite prefix_cons in *.
        destruct (Ascii.eqb "%" c); [|reflexivity]. simpl in *.
        destruct (String.prefix "7E" (replace_from "%7E" "~" 0 s)) eqn:E;
          [|reflexivity].
        apply replaced_starts_7E in E. congruence.
    + rewrite replace_from_skip. apply IH. lia.
Qed.

Lemma replace_tilde_clean s : contains "%7E" (replace "%7E" "~" s) = false.
Proof. apply replace_from_clean. lia. Qed.

(** *** [quote] with [~] safe writes no [%7E] *)

Lemma count_char_append c a b :
  count_char c (a +:+ b) = (count_char c a + count_char c b)%nat.
Proof. induction a as [|x a IH]; simpl; [reflexivity|]. rewrite IH. lia. Qed.

Lemma percent_encode_other c q :
  c <> "~"%char ->
  contains "%7E" (percent_encode c +:+ q) = contains "%7E" q /\
  count_char "~" (percent_encode c) = 0%nat.
Proof.
  intros Hne.
  destruct c as [[] [] [] [] [] [] [] []];
    first [now destruct Hne | split; reflexivity].
Qed.

Section QuoteProperties.

Context (tilde_always_safe : bool).

Lemma percent_never_safe : always_safe tilde_always_safe "%" = false.
Proof. unfold always_safe. now destruct tilde_always_safe. Qed.

Lemma quote_clean s safe :
  tilde_always_safe || char_in "~" safe = true ->
  char_in "%" safe = false ->
  contains "%7E" (quote tilde_always_safe s safe) = false /\
  count_char "~" (quote tilde_always_safe s safe) = count_char "~" s.
Proof.
  intros Htilde Hpercent. induction s as [|c s [IHc IHn]]; [split; reflexivity|].
  cbn [quote].
  destruct (always_safe tilde_always_safe c || char_in c safe) eqn:Hs.
  - split.
    + change (String c "" +:+ quote tilde_always_safe s safe)
        with (String c (quote tilde_always_safe s safe)).
      rewrite contains_cons, IHc, orb_false_r, prefix_cons.
      destruct (Ascii.eqb_spec "%" c) as [<-|Hne]; [|reflexivity].
      now rewrite percent_never_safe, Hpercent in Hs.
    + rewrite count_char_append, IHn. cbn [count_char]. lia.
  - assert (Hne : c <> "~"%char).
    { intros ->. unfold always_safe in Hs. simpl in Hs.
      destruct tilde_always_safe; simpl in *; congruence. }
    destruct (percent_encode_other c (quote tilde_always_safe s safe) Hne)
      as [Hc Hn].
    split.
    + now rewrite Hc.
    + rewrite count_char_append, Hn, IHn. cbn [count_char].
      destruct (Ascii.eqb_spec c "~"); [contradiction|reflexivity].
Qed.

Lemma pattern_not_across a c b :
  c <> "%"%char -> c <> "7"%char -> c <> "E"%char ->
  contains "%7E" (a +:+ String c b) = contains "%7E" a || contains "%7E" b.
Proof.
  intros H1 H2 H3.
  assert (E1 : Ascii.eqb "%" c = false) by (apply Ascii.eqb_neq; congruence).
  assert (E2 : Ascii.eqb "7" c = false) by (apply Ascii.eqb_neq; congruence).
  assert (E3 : Ascii.eqb "E" c = false) by (apply Ascii.eqb_neq; congruence).
  induction a as [|x a IH].
  - change ("" +:+ String c b) with (String c b).
    rewrite contains_cons, prefix_cons, E1. reflexivity.
  - change (String x a +:+ String c b) with (String x (a +:+ String c b)).
    rewrite !contains_cons, IH, orb_assoc. f_equal. f_equal.
    rewrite !prefix_cons. f_equal.
    destruct a as [|y [|z a]].
    + change ("" +:+ String c b) with (String c b).
      rewrite prefix_cons, E2. reflexivity.
    + change (String y "" +:+ String c b) with (String y (String c b)).
      rewrite !prefix_cons, E3. simpl. now rewrite andb_false_r.
    + change (String y (String z a) +:+ String c b)
        with (String y (String z (a +:+ String c b))).
      rewrite !prefix_cons, !prefix_empty_l. reflexivity.
Qed.

Lemma append_empty_r (a : string) : a +:+ "" = a.
Proof.
  induction a as [|x a IH]; [reflexivity|].
  change (String x a +:+ "") with (String x (a +:+ "")). now rewrite IH.
Qed.

Lemma encode_link_query_clean parameters :
  contains "%7E" (encode_link_query tilde_always_safe parameters) = false.
Proof.
  unfold encode_link_query. destruct parameters as [|p ps]; [reflexivity|].
  change ("?" +:+ fixed_urlencode tilde_always_safe (p :: ps))
    with (String "?" (fixed_urlencode tilde_always_safe (p :: ps))).
  rewrite contains_cons, prefix_cons. simpl andb.
  apply replace_tilde_clean.
Qed.

(** C9.  In a link made by [_encode_link] no [~] is percent-encoded:
    the quoted path holds every [~] of the path as it is and no
    [%7E], the query holds no [%7E], and when the link prefix and the
    view name hold none the whole link holds none. *)
Theorem encode_link_keeps_tilde (link_prefix path name : string)
    (parameters : list (string * list string)) :
  contains "%7E" (quote tilde_always_safe path "/~") = false /\
  count_char "~" (quote tilde_always_safe path "/~") = count_char "~" path /\
  contains "%7E" (encode_link_query tilde_always_safe parameters) = false /\
  (contains "%7E" link_prefix = false -> contains "%7E" name = false ->
   contains "%7E"
     (_encode_link tilde_always_safe link_prefix path name parameters) = false).
Proof.
  destruct (quote_clean path "/~") as [Hq Hn];
    [now destruct tilde_always_safe|reflexivity|].
  pose proof (encode_link_query_clean parameters) as Hquery.
  repeat split; try assumption.
  intros Hprefix Hname. unfold _encode_link.
  assert (Hparts : contains "%7E"
                     (join "/" (encode_link_parts tilde_always_safe path name))
                   = false).
  { unfold encode_link_parts.
    destruct (String.eqb path ""), (String.eqb name ""); cbn [app join];
      try assumption; try reflexivity.
    change (quote tilde_always_safe path "/~" +:+ "/" +:+ name)
      with (quote tilde_always_safe path "/~" +:+ String "/" name).
    rewrite pattern_not_across by discriminate. now rewrite Hq, Hname. }
  change (link_prefix +:+ "/" +:+
          join "/" (encode_link_parts tilde_always_safe path name) +:+
          encode_link_query tilde_always_safe parameters)
    with (link_prefix +:+
          String "/" (join "/" (encode_link_parts tilde_always_safe path name)
                      +:+ encode_link_query tilde_always_safe parameters)).
  rewrite pattern_not_across by discriminate. rewrite Hprefix. simpl orb.
  unfold encode_link_query. destruct parameters as [|p ps].
  - now rewrite append_empty_r.
  - change ("?" +:+ fixed_urlencode tilde_always_safe (p :: ps))
      with (String "?" (fixed_urlencode tilde_always_safe (p :: ps))).
    rewrite pattern_not_across by discriminate. rewrite Hparts. simpl orb.
    apply replace_tilde_clean.
Qed.

End QuoteProperties.

(** The link [Request._encode_link] returns is that of [_encode_link]
    for the link prefix of the request. *)
Lemma Request_encode_link_result generic_link_prefix tilde_always_safe
    (self : Request) (path name : string) (parameters : Params) :
  snd (Request_encode_link generic_link_prefix tilde_always_safe self path
         name parameters)
  = _encode_link tilde_always_safe
      (snd (link_prefix generic_link_prefix self)) path name
      (map_to_list parameters).
Proof.
  unfold Request_encode_link.
  now destruct (link_prefix generic_link_prefix self).
Qed.

Lemma encode_link_keeps_tilde_witness :
  contains "%7E"
    (_encode_link false "http://localhost" "~user/a b" "edit"
       [("q~", ["x~y"])]) = false /\
  _encode_link false "http://localhost" "~user/a b" "edit" [("q~", ["x~y"])]
  = "http://localhost/~user/a%20b/edit?q~=x~y".
Proof.
  split; [|reflexivity].
  destruct (encode_link_keeps_tilde false "http://localhost" "~user/a b"
              "edit" [("q~", ["x~y"])]) as (_ & _ & _ & Hall).
  apply Hall; reflexivity.
Defined.

(** ** Links: stripped paths, [link] of [core.py], and class links *)

Lemma prefix_slash_cons c s :
  String.prefix "/" (String c s) = Ascii.eqb "/" c.
Proof. now rewrite prefix_cons, prefix_empty_l, andb_true_r. Qed.

Lemma lstrip_slash_start s : String.prefix "/" (lstrip_slash s) = false.
Proof.
  induction s as [|c s IH]; [reflexivity|].
  simpl. destruct c as [[] [] [] [] [] [] [] []]; try reflexivity. exact IH.
Qed.

Lemma rstrip_slash_start s :
  String.prefix "/" s = false -> String.prefix "/" (rstrip_slash s) = false.
Proof.
  destruct s as [|c s]; [reflexivity|]. rewrite prefix_slash_cons.
  intros H. simpl.
  destruct (rstrip_slash s).
  - destruct (Ascii.eqb_spec c "/") as [->|Hne]; [reflexivity|].
    now rewrite prefix_slash_cons.
  - now rewrite prefix_slash_cons.
Qed.

Lemma rstrip_slash_end s : last_char (rstrip_slash s) <> Some "/"%char.
Proof.
  induction s as [|c s IH]; [discriminate|]. simpl.
  destruct (rstrip_slash s) as [|d r] eqn:E.
  - destruct (Ascii.eqb_spec c "/") as [->|Hne]; simpl; congruence.
  - exact IH.
Qed.

Lemma strip_slash_ends s :
  String.prefix "/" (strip_slash s) = false /\
  last_char (strip_slash s) <> Some "/"%char.
Proof.
  unfold strip_slash. split.
  - apply rstrip_slash_start, lstrip_slash_start.
  - apply rstrip_slash_end.
Qed.

Lemma lstrip_slash_id s : String.prefix "/" s = false -> lstrip_slash s = s.
Proof.
  destruct s as [|c s]; [reflexivity|]. rewrite prefix_slash_cons.
  intros H. destruct c as [[] [] [] [] [] [] [] []]; try reflexivity.
  discriminate H.
Qed.

Lemma rstrip_slash_id s :
  last_char s <> Some "/"%char -> rstrip_slash s = s.
Proof.
  induction s as [|c s IH]; [reflexivity|]. intros H. simpl.
  destruct s as [|d s].
  - simpl. destruct (Ascii.eqb_spec c "/") as [->|Hne]; [now destruct H|].
    reflexivity.
  - rewrite IH by exact H. reflexivity.
Qed.

Lemma strip_slash_idempotent s : strip_slash (strip_slash s) = strip_slash s.
Proof.
  destruct (strip_slash_ends s) as [Hs He]. unfold strip_slash at 1.
  rewrite lstrip_slash_id by exact Hs. now apply rstrip_slash_id.
Qed.

Section MoreLinkProperties.

Context (generic_path : RegLookup -> Obj -> option (string * Params)).
Context (generic_class_path :
           RegLookup -> Class -> gmap string string -> option (string * Params)).
Context (generic_link_prefix : RegLookup -> Request -> string).
Context (tilde_always_safe : bool).
Context (repr_class : Class -> string).
Context (deferred_link_app : RegLookup -> App -> Obj -> option App).
Context (repr : Obj -> string).

Lemma core_link_loop_mounted app :
  forall result parameters obj,
    core_link_loop generic_path result parameters obj app =
    match generic_path (app_lookup app) obj with
    | None => Raise (TypeError "cannot unpack non-iterable NoneType object")
    | Some (path, params) =>
        match mounted_link_loop generic_path (result ++ [path])%list
                (params ∪ parameters) app with
        | Some rp => Ok rp
        | None => Raise (TypeError "cannot unpack non-iterable NoneType object")
        end
    end.
Proof.
  induction app as [i c k|i c k p IH] using App_chain_ind;
    intros result parameters obj.
  - simpl. now destruct (generic_path k obj) as [[path params]|].
  - simpl. destruct (generic_path k obj) as [[path params]|]; [|reflexivity].
    rewrite IH.
    now destruct (generic_path (app_lookup p) (Mounted (MkApp i c k (Some p))))
      as [[path' params']|].
Qed.

Lemma mounted_link_loop_extends app :
  forall result parameters r ps,
    mounted_link_loop generic_path result parameters app = Some (r, ps) ->
    exists l, r = (result ++ l)%list.
Proof.
  induction app as [i c k|i c k p IH] using App_chain_ind;
    intros result parameters r ps H; simpl in H.
  - injection H as <- _. exists []. now rewrite app_nil_r.
  - destruct (generic_path (app_lookup p) (Mounted (MkApp i c k (Some p))))
      as [[path params]|]; [|discriminate].
    apply IH in H as [l ->]. exists (path :: l). now rewrite <- app_assoc.
Qed.

(** X1.  [link] of [core.py] and [link] of [request.py] walk the same
    mounts: where the second returns a path, the first returns that
    path after the script name, with the same parameters; where the
    second returns [None], the first raises a [TypeError]. *)
Theorem core_link_agrees (obj : Obj) (app : App) (script_name : string) :
  match link generic_path obj app with
  | Some (p, ps) =>
      exists raw,
        p = strip_slash raw /\
        core_link generic_path script_name obj (Some app)
        = Ok (strip_slash (script_name +:+ "/" +:+ raw), ps) /\
        core_link generic_path "" obj (Some app) = Ok (p, ps)
  | None =>
      core_link generic_path script_name obj (Some app)
      = Raise (TypeError "cannot unpack non-iterable NoneType object")
  end.
Proof.
  unfold link, mounted_link, core_link. rewrite core_link_loop_mounted.
  destruct (generic_path (app_lookup app) obj) as [[path params]|];
    [|reflexivity].
  rewrite (right_id_L ∅ (∪)). change ([] ++ [path])%list with [path].
  destruct (mounted_link_loop generic_path [path] params app)
    as [[r ps]|] eqn:E; [|reflexivity].
  destruct (mounted_link_loop_extends app _ _ _ _ E) as [l ->].
  exists (join "/" (rev ([path] ++ l))). split; [reflexivity|].
  rewrite (rev_app_distr ([path] ++ l) [script_name]).
  rewrite (rev_app_distr ([path] ++ l) [""]).
  remember (rev ([path] ++ l)) as R eqn:Er.
  destruct R as [|x xs].
  - apply (f_equal (@length string)) in Er.
    rewrite length_rev, length_app in Er. simpl in Er. lia.
  - split; reflexivity.
Qed.

(** X2.  The path of a link begins and ends with no slash, whether made
    by [link] or [class_link] of [request.py] or by [link] of
    [core.py]: stripping it again changes nothing. *)
Theorem link_path_stripped (obj : Obj) (app : App) (model : Class)
    (variables : gmap string string) (script_name : string)
    (mounted : option App) (p : string) (ps : Params) :
  link generic_path obj app = Some (p, ps) \/
  class_link generic_path generic_class_path model variables app
  = Some (p, ps) \/
  core_link generic_path script_name obj mounted = Ok (p, ps) ->
  String.prefix "/" p = false /\ last_char p <> Some "/"%char /\
  strip_slash p = p.
Proof.
  intros H.
  assert (Hs : exists raw, p = strip_slash raw).
  { destruct H as [H|[H|H]].
    - unfold link, mounted_link in H.
      destruct (generic_path (app_lookup app) obj) as [[path params]|];
        [|discriminate].
      destruct (mounted_link_loop generic_path [path] params app)
        as [[r ps']|]; [|discriminate].
      injection H as <- _. eauto.
    - unfold class_link, mounted_link in H.
      destruct (generic_class_path (app_lookup app) model variables)
        as [[path params]|]; [|discriminate].
      destruct (mounted_link_loop generic_path [path] params app)
        as [[r ps']|]; [|discriminate].
      injection H as <- _. eauto.
    - unfold core_link in H. destruct mounted as [m|].
      + destruct (core_link_loop generic_path [] ∅ obj m) as [[r ps']|e];
          [|discriminate].
        injection H as <- _. eauto.
      + injection H as <- _. eauto. }
  destruct Hs as [raw ->]. destruct (strip_slash_ends raw) as [H1 H2].
  repeat split; try assumption. apply strip_slash_idempotent.
Qed.

(** X3.  [Request.class_link] makes the link of the class path across the
    mounts and raises the [LinkError] where the class has no path or a
    mount cannot be linked to; leaving out [variables] is passing none.
    Deferred links play no part. *)
Theorem class_link_across_mounts (self : Request) (model : Class)
    (variables : option (gmap string string)) (name : string) (app : App) :
  let result :=
    Request_class_link generic_path generic_class_path generic_link_prefix
      tilde_always_safe repr_class self model variables name
      (AppIs (Some app)) in
  match generic_class_path (app_lookup app) model (default ∅ variables) with
  | None => result = (self, Raise (cannot_link_class repr_class model))
  | Some (path, parameters) =>
      (forall frags,
         mount_infos generic_path app = map Some frags ->
         result =
         (fst (link_prefix generic_link_prefix self),
          Ok (_encode_link tilde_always_safe
                (snd (link_prefix generic_link_prefix self))
                (spec_link_path frags path) name
                (map_to_list
                   (merge_parameters (map snd frags) parameters))))) /\
      (In None (mount_infos generic_path app) ->
       result = (self, Raise (cannot_link_class repr_class model)))
  end.
Proof.
  intros result. subst result. unfold Request_class_link, class_link.
  replace (match variables with Some v => v | None => ∅ end)
    with (default ∅ variables) by now destruct variables.
  destruct (generic_class_path (app_lookup app) model (default ∅ variables))
    as [[path parameters]|]; [|reflexivity].
  unfold mounted_link. split.
  - intros frags Hfrags.
    rewrite (mounted_link_loop_all generic_path app _ _ frags Hfrags).
    unfold Request_encode_link, spec_link_path.
    destruct (link_prefix generic_link_prefix self) as [self' prefix].
    rewrite rev_app_distr. reflexivity.
  - intros Hbroken.
    now rewrite (mounted_link_loop_broken generic_path app _ _ Hbroken).
Qed.

(** X4.  [Request.link] changes nothing of the request but the cache of
    link prefixes, and that only when it returns a URL it made. *)
Theorem Request_link_frame fuel self obj name default app self' r :
  Request_link deferred_link_app generic_path generic_link_prefix repr
    tilde_always_safe fuel self obj name default app = Some (self', r) ->
  self' = self \/
  (self' = set_link_prefix_cache self
             (<[app_class (req_app self) :=
                  generic_link_prefix (req_lookup self) self]>
                (_link_prefix_cache self)) /\
   _link_prefix_cache self !! app_class (req_app self) = None /\
   exists url, r = Ok (Some url) /\ obj <> None).
Proof.
  unfold Request_link. intros H.
  destruct obj as [obj|]; [|injection H as <- _; now left].
  assert (Hgo : forall a,
    match follow_defers deferred_link_app repr fuel
            (fun app0 obj0 => link generic_path obj0 app0) (Some a) obj with
    | None => None
    | Some (Raise e) => Some (self, Raise e)
    | Some (Ok (None, _)) => Some (self, Raise (cannot_link repr obj))
    | Some (Ok (Some (path, parameters), _)) =>
        let '(self', url) :=
          Request_encode_link generic_link_prefix tilde_always_safe self
            path name parameters in
        Some (self', Ok (Some url))
    end = Some (self', r) ->
    self' = self \/
    (self' = set_link_prefix_cache self
               (<[app_class (req_app self) :=
                    generic_link_prefix (req_lookup self) self]>
                  (_link_prefix_cache self)) /\
     _link_prefix_cache self !! app_class (req_app self) = None /\
     exists url, r = Ok (Some url) /\ Some obj <> None)).
  { intros a Ha.
    destruct (follow_defers deferred_link_app repr fuel
                (fun app0 obj0 => link generic_path obj0 app0) (Some a) obj)
      as [[[[[path parameters]|] o]|e]|]; try discriminate;
      try (injection Ha as <- _; now left).
    unfold Request_encode_link, link_prefix in Ha.
    destruct (_link_prefix_cache self !! app_class (req_app self))
      as [cached|] eqn:Hc.
    - injection Ha as <- _. now left.
    - injection Ha as <- <-. right. repeat split; eauto. }
  destruct app as [|[a|]].
  - now apply Hgo in H.
  - now apply Hgo in H.
  - injection H as <- _. now left.
Qed.

End MoreLinkProperties.

Lemma link_path_stripped_witness :
  link Scenario.nested_path Scenario.foo Scenario.inner_app
  = Some ("inner/foo", ∅) /\
  String.prefix "/" "inner/foo" = false /\
  last_char "inner/foo" <> Some "/"%char /\
  strip_slash "inner/foo" = "inner/foo".
Proof.
  split; [reflexivity|].
  apply (link_path_stripped Scenario.nested_path Fixture.class_path
           Scenario.foo Scenario.inner_app "Model" ∅ "" None "inner/foo" ∅).
  left. reflexivity.
Defined.

Lemma class_link_across_mounts_witness :
  Request_class_link Scenario.nested_path Fixture.class_path
    Scenario.link_prefix false Fixture.repr_class
    (Scenario.request_in Scenario.inner_app "" "GET") "Model"
    (Some (<["id" := "foo"]> {[ "a" := "b" ]})) "edit"
    (AppIs (Some Scenario.inner_app))
  = (fst (link_prefix Scenario.link_prefix
            (Scenario.request_in Scenario.inner_app "" "GET")),
     Ok "http://localhost/inner/foo/edit?a=b").
Proof.
  exact (proj1 (class_link_across_mounts Scenario.nested_path
                  Fixture.class_path Scenario.link_prefix false
                  Fixture.repr_class
                  (Scenario.request_in Scenario.inner_app "" "GET") "Model"
                  (Some (<["id" := "foo"]> {[ "a" := "b" ]})) "edit"
                  Scenario.inner_app)
           [("inner", ∅)] eq_refl).
Defined.

Lemma Request_link_frame_witness :
  Request_link Scenario.no_defer Scenario.nested_path Scenario.link_prefix
    Scenario.repr false 2 (Scenario.request_in Scenario.inner_app "" "GET")
    (Some Scenario.foo) "" None SAME_APP
  = Some (set_link_prefix_cache
            (Scenario.request_in Scenario.inner_app "" "GET")
            (<["inner_app" := "http://localhost"]> ∅),
          Ok (Some "http://localhost/inner/foo")) /\
  (set_link_prefix_cache (Scenario.request_in Scenario.inner_app "" "GET")
     (<["inner_app" := "http://localhost"]> ∅)
   = Scenario.request_in Scenario.inner_app "" "GET" \/
   (set_link_prefix_cache (Scenario.request_in Scenario.inner_app "" "GET")
      (<["inner_app" := "http://localhost"]> ∅)
    = set_link_prefix_cache (Scenario.request_in Scenario.inner_app "" "GET")
        (<[app_class Scenario.inner_app :=
             Scenario.link_prefix "inner"
               (Scenario.request_in Scenario.inner_app "" "GET")]> ∅) /\
    (∅ : gmap Class string) !! app_class Scenario.inner_app = None /\
    exists url,
      Ok (Some "http://localhost/inner/foo") = Ok (Some url) /\
      Some Scenario.foo <> None)).
Proof.
  assert (H : Request_link Scenario.no_defer Scenario.nested_path
                Scenario.link_prefix Scenario.repr false 2
                (Scenario.request_in Scenario.inner_app "" "GET")
                (Some Scenario.foo) "" None SAME_APP
              = Some (set_link_prefix_cache
                        (Scenario.request_in Scenario.inner_app "" "GET")
                        (<["inner_app" := "http://localhost"]> ∅),
                      Ok (Some "http://localhost/inner/foo")))
    by reflexivity.
  split; [exact H|].
  exact (Request_link_frame Scenario.nested_path Scenario.link_prefix
           false Scenario.no_defer Scenario.repr _ _ _ _ _ _ _ _ H).
Defined.

(** ** The request: link prefix and identity *)

Section RequestProperties.

Context (deferred_link_app : RegLookup -> App -> Obj -> option App).
Context (generic_link_prefix : RegLookup -> Request -> string).
Context (generic_identify : RegLookup -> Request -> option Identity).
Context (generic_verify_identity : RegLookup -> Identity -> bool).
Context (generic_permits : RegLookup -> Identity -> Obj -> Permission -> bool).
Context (generic_view_component : RegLookup -> Request -> Obj -> Component).
Context (generic_view_component_key_dict :
           RegLookup -> gmap string Key -> option View).
Context (repr : Obj -> string).

(** X5.  The link prefix is computed once for the class of the application:
    a second call returns the same prefix from the cache, whatever
    [generic.link_prefix] would return then, and changes nothing. *)
Theorem link_prefix_cached (self : Request)
    (later : RegLookup -> Request -> string) :
  let '(self1, prefix) := link_prefix generic_link_prefix self in
  link_prefix later self1 = (self1, prefix) /\
  req_app self1 = req_app self /\ req_lookup self1 = req_lookup self /\
  unconsumed self1 = unconsumed self /\
  (forall cls, cls <> app_class (req_app self) ->
     _link_prefix_cache self1 !! cls = _link_prefix_cache self !! cls).
Proof.
  unfold link_prefix.
  destruct (_link_prefix_cache self !! app_class (req_app self))
    as [cached|] eqn:Hc.
  - rewrite Hc. repeat split.
  - simpl. rewrite lookup_insert_eq. repeat split.
    intros cls Hne. now rewrite lookup_insert_ne.
Qed.

(** X6.  [request.identity] is never an identity that
    [generic.verify_identity] refuses: it is [NO_IDENTITY] or a
    verified identity.  It is established once: a second access
    returns the same identity without asking the policy. *)
Theorem identity_verified_or_none (self : Request)
    (identify' : RegLookup -> Request -> option Identity)
    (verify' : RegLookup -> Identity -> bool) :
  identity_cache self = None ->
  let '(self1, ident) :=
    identity generic_identify generic_verify_identity self in
  (ident = NO_IDENTITY \/
   (generic_identify (req_lookup self) self = Some ident /\
    generic_verify_identity (req_lookup self) ident = true)) /\
  identity identify' verify' self1 = (self1, ident).
Proof.
  intros Hc. unfold identity. rewrite Hc. simpl. split; [|reflexivity].
  destruct (generic_identify (req_lookup self) self) as [[|u]|];
    [now left| |now left].
  destruct (generic_verify_identity (req_lookup self) (MkIdentity u)) eqn:Hv;
    [right; now split|now left].
Qed.

End RequestProperties.

Lemma identity_verified_or_none_witness :
  identity_cache (Scenario.request_in Scenario.outer_app "" "GET") = None /\
  let '(self1, ident) :=
    identity Fixture.identify_joe Scenario.verify_all
      (Scenario.request_in Scenario.outer_app "" "GET") in
  (ident = NO_IDENTITY \/
   (Fixture.identify_joe "outer"
      (Scenario.request_in Scenario.outer_app "" "GET") = Some ident /\
    Scenario.verify_all "outer" ident = true)) /\
  identity Scenario.no_identify Scenario.verify_all self1 = (self1, ident).
Proof.
  split; [reflexivity|].
  apply (identity_verified_or_none Fixture.identify_joe Scenario.verify_all
           (Scenario.request_in Scenario.outer_app "" "GET")
           Scenario.no_identify Scenario.verify_all).
  reflexivity.
Defined.


(** ** After hooks *)

(** X7.  The functions given to [request.after] are called with the
    response in the order they were given, after those the request
    had; after [clear_after] none is called. *)
Theorem after_hooks_in_order (self : Request)
    (hooks : list (Response -> Response)) (response : Response) :
  run_after (fold_left after hooks self) response
  = fold_left (fun resp f => f resp) hooks (run_after self response) /\
  run_after (clear_after self) response = response /\
  run_after (fold_left after hooks (clear_after self)) response
  = fold_left (fun resp f => f resp) hooks response.
Proof.
  assert (H : forall hs s r,
            run_after (fold_left after hs s) r
            = fold_left (fun resp f => f resp) hs (run_after s r)).
  { induction hs as [|h hs IH]; intros s r; [reflexivity|].
    simpl. rewrite IH. f_equal. unfold run_after, after. simpl.
    now rewrite fold_left_app. }
  split; [apply H|]. split; [reflexivity|]. now rewrite H.
Qed.

Section ResponseProperties.

Context (generic_identify : RegLookup -> Request -> option Identity).
Context (generic_verify_identity : RegLookup -> Identity -> bool).
Context (generic_permits : RegLookup -> Identity -> Obj -> Permission -> bool).
Context (generic_view_component : RegLookup -> Request -> Obj -> Component).

(** X8.  For a view that is not internal and whose permission, if it has
    one, is granted, [get_response] calls the view once.  A response
    the view returns is returned as it is, with no after hook called
    on it; other content is rendered, as plain text when the view has
    no [render], and the after hooks the request holds after the call,
    those the view added included, are called on the response in
    order. *)
Theorem get_response_renders (request : Request) (obj : Obj) (view : View) :
  generic_view_component (req_lookup request) request obj = CView view ->
  internal view = false ->
  (forall perm,
     permission view = Some perm ->
     generic_permits (req_lookup request)
       (snd (identity generic_identify generic_verify_identity request))
       obj perm = true) ->
  let request0 :=
    match permission view with
    | None => request
    | Some _ => fst (identity generic_identify generic_verify_identity request)
    end in
  get_response generic_identify generic_verify_identity generic_permits
    generic_view_component request obj =
  match call_view view request0 obj with
  | (request1, Raise e) => (request1, [view], Raise e)
  | (request1, Ok (ContentResponse response)) =>
      (request1, [view], Ok (Some response))
  | (request1, Ok (ContentValue v)) =>
      (request1, [view],
       Ok (Some (fold_left (fun resp f => f resp) (_after request1)
                   match render view with
                   | Some r => r (ContentValue v) request1
                   | None => MkResponse v "text/plain" []
                   end)))
  end.
Proof.
  intros Hview Hint Hperm request0. subst request0. unfold get_response.
  rewrite Hview, Hint.
  destruct (permission view) as [perm|].
  - specialize (Hperm perm eq_refl).
    pose proof (identity_keeps_lookup generic_identify
                  generic_verify_identity request) as [Hl _].
    destruct (identity generic_identify generic_verify_identity request)
      as [request' ident].
    simpl in *. rewrite Hl, Hperm. simpl.
    destruct (call_view view request' obj) as [request1 [[resp|v]|e]];
      reflexivity.
  - destruct (call_view view request obj) as [request1 [[resp|v]|e]];
      reflexivity.
Qed.

End ResponseProperties.

Lemma get_response_renders_witness :
  get_response Fixture.identify_joe Scenario.verify_all Fixture.permit_all
    (fun _ _ _ => CView Fixture.after_view)
    (Scenario.request_in Scenario.outer_app "" "GET") Scenario.foo
  = (after
       (fst (identity Fixture.identify_joe Scenario.verify_all
               (Scenario.request_in Scenario.outer_app "" "GET")))
       Fixture.add_blah,
     [Fixture.after_view],
     Ok (Some (MkResponse "hello" "text/plain" [("blah", "something")]))).
Proof.
  exact (get_response_renders Fixture.identify_joe Scenario.verify_all
           Fixture.permit_all (fun _ _ _ => CView Fixture.after_view)
           (Scenario.request_in Scenario.outer_app "" "GET") Scenario.foo
           Fixture.after_view eq_refl eq_refl (fun perm _ => eq_refl)).
Defined.


(** ** Consuming a path: the variables of the model factory *)

Section FactoryVariables.

Context (generic_traject : RegLookup -> Obj -> option Traject).
Context (generic_context : RegLookup -> Obj -> option Variables).

(** X9.  The model factory of a matched route is called with variables
    taken, for each name, from the variables of the path first, then
    [request] and [parent], then the context, then the URL
    parameters; what [traject_consume] returns is decided by that
    call. *)
Theorem factory_variables_precedence (request : Request) (model : Obj)
    (lookup : RegLookup) (traject : Traject) (held stack : list string)
    (route : Route) (traject_variables context : Variables) :
  generic_traject lookup model = Some traject ->
  consume traject (unconsumed request)
  = (held, (Some route, stack, traject_variables)) ->
  generic_context lookup model = Some context ->
  exists variables : Variables,
    (forall name,
       variables !! name =
       match traject_variables !! name with
       | Some v => Some v
       | None =>
           if decide (name = "request")
           then Some (VRequest (set_unconsumed request held))
           else if decide (name = "parent") then Some (VObj model)
           else match context !! name with
                | Some v => Some v
                | None => get_parameters route (GET request) !! name
                end
       end) /\
    traject_consume generic_traject generic_context request model lookup =
    match get_model route variables with
    | None => (set_unconsumed request held, None)
    | Some next_model =>
        (set_unconsumed (set_unconsumed request held) stack, Some next_model)
    end.
Proof.
  intros Ht Hc Hctx.
  exists (consume_variables (set_unconsumed request held) model route context
            traject_variables).
  split.
  - intros name. unfold consume_variables.
    destruct (traject_variables !! name) as [v|] eqn:Etv.
    + now apply lookup_union_Some_l.
    + rewrite lookup_union_r by exact Etv.
      destruct (decide (name = "request")) as [->|Hr].
      * now rewrite lookup_insert_eq.
      * rewrite lookup_insert_ne by congruence.
        destruct (decide (name = "parent")) as [->|Hp].
        -- now rewrite lookup_insert_eq.
        -- rewrite lookup_insert_ne by congruence.
           destruct (context !! name) as [v|] eqn:Ec.
           ++ now apply lookup_union_Some_l.
           ++ now rewrite lookup_union_r by exact Ec.
  - rewrite (traject_consume_unfold generic_traject generic_context
               request model lookup traject held (Some route) stack
               traject_variables Ht Hc).
    cbv zeta. now rewrite Hctx.
Qed.

End FactoryVariables.

Lemma factory_variables_precedence_witness :
  exists variables : Variables,
    (forall name,
       variables !! name =
       match ({[ "id" := VStr "foo" ]} : Variables) !! name with
       | Some v => Some v
       | None =>
           if decide (name = "request")
           then Some (VRequest
                        (set_unconsumed (Scenario.request_for ["foo"]) ["foo"]))
           else if decide (name = "parent")
                then Some (VObj (Mounted Scenario.outer_app))
           else match (∅ : Variables) !! name with
                | Some v => Some v
                | None =>
                    get_parameters Scenario.model_route
                      (GET (Scenario.request_for ["foo"])) !! name
                end
       end) /\
    traject_consume Scenario.app_traject Scenario.empty_context
      (Scenario.request_for ["foo"]) (Mounted Scenario.outer_app) "outer" =
    match get_model Scenario.model_route variables with
    | None => (set_unconsumed (Scenario.request_for ["foo"]) ["foo"], None)
    | Some next_model =>
        (set_unconsumed
           (set_unconsumed (Scenario.request_for ["foo"]) ["foo"]) [],
         Some next_model)
    end.
Proof.
  apply (factory_variables_precedence Scenario.app_traject
           Scenario.empty_context (Scenario.request_for ["foo"])
           (Mounted Scenario.outer_app) "outer" Scenario.id_traject
           ["foo"] [] Scenario.model_route {[ "id" := VStr "foo" ]} ∅);
    reflexivity.
Defined.

(** ** Quoting: what [fixed_urlencode] repairs *)

Lemma append_assoc' (a b c : string) : (a +:+ b) +:+ c = a +:+ (b +:+ c).
Proof.
  induction a as [|x a IH]; [reflexivity|].
  change (String x a +:+ b) with (String x (a +:+ b)).
  change (String x (a +:+ b) +:+ c) with (String x ((a +:+ b) +:+ c)).
  change (String x a +:+ (b +:+ c)) with (String x (a +:+ (b +:+ c))).
  now rewrite IH.
Qed.

Lemma repaired_empty : repaired "" "".
Proof. intros rest. reflexivity. Qed.

Lemma repaired_append s1 t1 s2 t2 :
  repaired s1 t1 -> repaired s2 t2 -> repaired (s1 +:+ s2) (t1 +:+ t2).
Proof.
  intros H1 H2 rest. now rewrite !append_assoc', H1, H2.
Qed.

Lemma repaired_char c : c <> "%"%char -> repaired (String c "") (String c "").
Proof.
  intros Hne rest.
  change (String c "" +:+ rest) with (String c rest).
  change (String c "" +:+ replace "%7E" "~" rest)
    with (String c (replace "%7E" "~" rest)).
  unfold replace. rewrite replace_from_step, prefix_cons.
  destruct (Ascii.eqb_spec "%" c) as [<-|_]; [now destruct Hne|reflexivity].
Qed.

Lemma repaired_tilde : repaired (percent_encode "~") "~".
Proof. intros rest. destruct rest; reflexivity. Qed.

Lemma repaired_percent_encode c :
  c <> "~"%char -> repaired (percent_encode c) (percent_encode c).
Proof.
  intros Hne rest.
  destruct c as [[] [] [] [] [] [] [] []];
    first [now destruct Hne | reflexivity].
Qed.

Lemma always_safe_cases (b : bool) (c : ascii) :
  always_safe b c = always_safe true c \/
  (b = false /\ c = "~"%char /\ always_safe true c = true).
Proof.
  destruct b; [now left|].
  destruct (Ascii.eqb_spec c "~") as [->|Hne].
  - right. auto.
  - left. unfold always_safe. apply Ascii.eqb_neq in Hne. rewrite Hne.
    now rewrite !andb_false_r.
Qed.

Lemma always_safe_not_percent (b : bool) (c : ascii) :
  always_safe b c = true -> c <> "%"%char.
Proof. intros H ->. now destruct b. Qed.

Lemma repaired_quote_plus (b : bool) (s : string) :
  repaired (quote_plus b s) (quote_plus true s).
Proof.
  induction s as [|c s IH]; [apply repaired_empty|].
  cbn [quote_plus]. apply repaired_append; [|exact IH].
  destruct (Ascii.eqb c " "); [now apply repaired_char|].
  destruct (always_safe_cases b c) as [E|(-> & -> & E)].
  - rewrite E. destruct (always_safe true c) eqn:Hs.
    + apply repaired_char. now apply always_safe_not_percent with true.
    + apply repaired_percent_encode. now intros ->.
  - apply repaired_tilde.
Qed.

Lemma repaired_join (l l' : list string) :
  Forall2 repaired l l' -> repaired (join "&" l) (join "&" l').
Proof.
  induction 1 as [|x y l l' Hxy Hl IH]; [apply repaired_empty|].
  destruct Hl as [|x' y' l l' Hxy' Hl].
  - exact Hxy.
  - change (join "&" (x :: x' :: l)) with (x +:+ "&" +:+ join "&" (x' :: l)).
    change (join "&" (y :: y' :: l'))
      with (y +:+ "&" +:+ join "&" (y' :: l')).
    apply repaired_append; [exact Hxy|].
    apply repaired_append; [now apply repaired_char|exact IH].
Qed.

Lemma repaired_pairs (b : bool) (query : list (string * list string)) :
  Forall2 repaired
    (flat_map (fun '(k, v) =>
       map (fun elt => quote_plus b k +:+ "=" +:+ quote_plus b elt) v) query)
    (flat_map (fun '(k, v) =>
       map (fun elt => quote_plus true k +:+ "=" +:+ quote_plus true elt) v)
       query).
Proof.
  induction query as [|[k v] query IH]; [constructor|].
  cbn [flat_map]. apply Forall2_app; [|exact IH].
  induction v as [|elt v IHv]; [constructor|].
  cbn [map]. constructor; [|exact IHv].
  apply repaired_append; [apply repaired_quote_plus|].
  apply repaired_append; [now apply repaired_char|apply repaired_quote_plus].
Qed.

Lemma replace_urlencode (tilde_always_safe : bool)
    (query : list (string * list string)) :
  replace "%7E" "~" (urlencode tilde_always_safe query) = urlencode true query.
Proof.
  rewrite <- (append_empty_r (urlencode tilde_always_safe query)).
  unfold urlencode.
  rewrite (repaired_join _ _ (repaired_pairs tilde_always_safe query)).
  apply append_empty_r.
Qed.

Lemma quote_path_same (tilde_always_safe : bool) (path : string) :
  quote tilde_always_safe path "/~" = quote true path "/~".
Proof.
  induction path as [|c path IH]; [reflexivity|].
  cbn [quote]. rewrite IH. f_equal.
  destruct (always_safe_cases tilde_always_safe c) as [E|(-> & -> & E)].
  - now rewrite E.
  - reflexivity.
Qed.

(** X10.  [fixed_urlencode] gives, whether [urlencode] escapes the
    tilde or not, the text that [urlencode] gives where it does not
    escape it: every [%7E] stood for a tilde of a key or a value, and
    nothing else of the query is changed. *)
Theorem fixed_urlencode_is_urlencode (tilde_always_safe : bool)
    (query : list (string * list string)) :
  fixed_urlencode tilde_always_safe query = urlencode true query.
Proof.
  unfold fixed_urlencode.
  rewrite <- (append_empty_r (urlencode tilde_always_safe query)).
  unfold urlencode.
  rewrite (repaired_join _ _ (repaired_pairs tilde_always_safe query)).
  apply append_empty_r.
Qed.

(** X11.  The URL that [Request._encode_link] makes is the same
    whether [quote] and [urlencode] escape the tilde or not. *)
Theorem encode_link_same_on_all_versions (tilde_always_safe : bool)
    (link_prefix path name : string)
    (parameters : list (string * list string)) :
  _encode_link tilde_always_safe link_prefix path name parameters
  = _encode_link true link_prefix path name parameters.
Proof.
  unfold _encode_link, encode_link_parts, encode_link_query, fixed_urlencode.
  rewrite quote_path_same.
  destruct parameters as [|p ps]; [reflexivity|].
  now rewrite !replace_urlencode.
Qed.

(** ** Identities ([security.py]) *)

Import Security.

Lemma as_dict_loop_spec (self : Attrs) (names : list string) :
  forall result : Attrs,
    (forall n, n ∈ names -> is_Some (self !! n)) ->
    exists res : Attrs,
      as_dict_loop self names result = Ok res /\
      forall k, res !! k = if decide (k ∈ names) then self !! k
                           else result !! k.
Proof.
  induction names as [|name rest IH]; intros result Hall.
  - exists result. split; [reflexivity|]. intros k.
    destruct (decide (k ∈ [])) as [Hin|_]; [|reflexivity].
    now apply elem_of_nil in Hin.
  - destruct (Hall name) as [v Hv]; [left|].
    destruct (IH (<[name := v]> result)) as (res & Hres & Hlookup).
    { intros n Hn. apply Hall. now right. }
    exists res. split.
    + simpl. unfold getattr. rewrite Hv. exact Hres.
    + intros k. rewrite Hlookup.
      destruct (decide (k ∈ rest)) as [Hin|Hnin].
      * destruct (decide (k ∈ name :: rest)) as [_|Hn]; [reflexivity|].
        destruct Hn. now right.
      * destruct (decide (k = name)) as [->|Hne].
        -- rewrite lookup_insert_eq.
           destruct (decide (name ∈ name :: rest)) as [_|Hn];
             [now rewrite Hv|].
           destruct Hn. left.
        -- rewrite lookup_insert_ne by congruence.
           destruct (decide (k ∈ name :: rest)) as [Hin|_]; [|reflexivity].
           apply elem_of_cons in Hin as [->|Hin]; contradiction.
Qed.

(** Membership in a list that is written out. *)
Ltac listed := compute_done.

Lemma bind_keywords_accepts (kw : Keywords) :
  (forall k, k ∈ kw.*1 -> k ∉ refused_keywords) ->
  bind_keywords kw = Ok tt.
Proof.
  induction kw as [|[k v] kw IH]; intros Hk; [reflexivity|].
  cbn [bind_keywords].
  assert (Hn : k ∉ refused_keywords) by (apply Hk; left).
  destruct (String.eqb_spec k "self") as [->|_].
  { destruct Hn. listed. }
  destruct (String.eqb_spec k "userid") as [->|_].
  { destruct Hn. listed. }
  apply IH. intros k' Hk'. apply Hk. now right.
Qed.

Lemma setattr_accepts (self : Attrs) (k : string) (v : Arg) :
  k ∉ refused_keywords -> setattr self k v = Ok (<[k := PyArg v]> self).
Proof.
  intros Hn. unfold setattr.
  destruct (String.eqb_spec k "__class__") as [->|_].
  { destruct Hn. listed. }
  destruct (String.eqb_spec k "__dict__") as [->|_].
  { destruct Hn. listed. }
  destruct (String.eqb_spec k "__weakref__") as [->|_].
  { destruct Hn. listed. }
  reflexivity.
Qed.

(** Setting the keywords one after the other gives each name the
    value it was given, and leaves the other attributes. *)
Lemma setattr_all_lookup (kw : Keywords) :
  forall self : Attrs,
    NoDup kw.*1 ->
    (forall k, k ∈ kw.*1 -> k ∉ refused_keywords) ->
    exists res : Attrs,
      setattr_all self kw = Ok res /\
      forall k, res !! k =
                match (list_to_map kw : gmap string Arg) !! k with
                | Some v => Some (PyArg v)
                | None => self !! k
                end.
Proof.
  induction kw as [|[k0 v0] kw IH]; intros self Hnd Hk.
  - exists self. split; [reflexivity|]. intros k.
    now rewrite list_to_map_nil, lookup_empty.
  - apply NoDup_cons in Hnd as [Hfresh Hnd].
    cbn [setattr_all]. rewrite setattr_accepts by (apply Hk; left).
    destruct (IH (<[k0 := PyArg v0]> self) Hnd) as (res & Hres & Hlookup).
    { intros k' Hk'. apply Hk. now right. }
    exists res. split; [exact Hres|]. intros k. rewrite Hlookup.
    rewrite list_to_map_cons.
    destruct (decide (k = k0)) as [->|Hne].
    + simpl in Hfresh. apply not_elem_of_list_to_map_1 in Hfresh.
      rewrite Hfresh. now rewrite !lookup_insert_eq.
    + rewrite (lookup_insert_ne (list_to_map kw)) by congruence.
      destruct (list_to_map kw !! k); [reflexivity|].
      now rewrite lookup_insert_ne by congruence.
Qed.

Lemma bind_keywords_refuses (kw : Keywords) :
  "self" ∈ kw.*1 \/ "userid" ∈ kw.*1 ->
  exists e, bind_keywords kw = Raise e.
Proof.
  induction kw as [|[k v] kw IH]; intros H.
  - destruct H as [H|H]; now apply elem_of_nil in H.
  - cbn [bind_keywords].
    destruct (String.eqb k "self" || String.eqb k "userid") eqn:E; [eauto|].
    apply orb_false_elim in E as [E1 E2].
    apply String.eqb_neq in E1, E2.
    apply IH. simpl in H. rewrite !elem_of_cons in H.
    destruct H as [[H|H]|[H|H]]; try (now left); try (now right);
      congruence.
Qed.

Lemma setattr_all_refuses (kw : Keywords) :
  forall self : Attrs,
    "__class__" ∈ kw.*1 \/ "__dict__" ∈ kw.*1 \/ "__weakref__" ∈ kw.*1 ->
    exists e, setattr_all self kw = Raise e.
Proof.
  induction kw as [|[k v] kw IH]; intros self H.
  - destruct H as [H|[H|H]]; now apply elem_of_nil in H.
  - cbn [setattr_all]. unfold setattr.
    destruct (String.eqb_spec k "__class__") as [->|N1]; [eauto|].
    destruct (String.eqb_spec k "__dict__") as [->|N2]; [eauto|].
    destruct (String.eqb_spec k "__weakref__") as [->|N3]; [eauto|].
    apply IH. simpl in H. rewrite !elem_of_cons in H.
    destruct H as [[H|H]|[[H|H]|[H|H]]]; try congruence; auto.
Qed.

(** X12.  For keywords none of which is named [self], [userid],
    [__class__], [__dict__], [__weakref__], [_names], [verified] or
    [as_dict], [Identity(userid, **kw).as_dict()] is [kw] with the
    userid, and the identity is not verified.  With a keyword named
    [self], [userid], [__class__], [__dict__] or [__weakref__] the
    call [Identity(userid, **kw)] raises. *)
Theorem as_dict_of_init (userid : Arg) (kw : Keywords) :
  NoDup kw.*1 ->
  ((forall k, k ∈ kw.*1 -> k ∉ reserved_keywords) ->
   exists attrs,
     Identity_init userid kw = Ok attrs /\
     attrs !! "verified" = Some (PyArg ArgNone) /\
     as_dict attrs
     = Ok (<["userid" := PyArg userid]> (PyArg <$> list_to_map kw))) /\
  ((exists k, k ∈ kw.*1 /\ k ∈ refused_keywords) ->
   exists e, Identity_init userid kw = Raise e).
Proof.
  intros Hnd. split.
  - intros Hk.
    assert (Hrefused : forall k, k ∈ kw.*1 -> k ∉ refused_keywords).
    { intros k Hin Hr. apply (Hk k Hin). unfold reserved_keywords.
      apply elem_of_app. now left. }
    assert (Hfree : forall k, k ∈ reserved_keywords ->
              (list_to_map kw : gmap string Arg) !! k = None).
    { intros k Hr. apply not_elem_of_list_to_map_1. intros Hin.
      now apply (Hk k Hin). }
    unfold Identity_init. rewrite (bind_keywords_accepts kw Hrefused).
    destruct (setattr_all_lookup kw
                (<["_names" := PyKeys kw.*1]> {[ "userid" := PyArg userid ]})
                Hnd Hrefused) as (res & -> & Hres).
    eexists. split; [reflexivity|]. split; [apply lookup_insert_eq|].
    set (attrs := <["verified" := PyArg ArgNone]> res).
    assert (Hlook : forall k, k <> "verified" -> attrs !! k = res !! k).
    { intros k Hne. unfold attrs. now rewrite lookup_insert_ne. }
    unfold as_dict, getattr.
    rewrite (Hlook "as_dict"), (Hres "as_dict"), (Hfree "as_dict")
      by (discriminate || listed).
    rewrite lookup_insert_ne, lookup_singleton_ne by discriminate.
    rewrite (Hlook "userid"), (Hres "userid"), (Hfree "userid")
      by (discriminate || listed).
    rewrite lookup_insert_ne, lookup_singleton_eq by discriminate.
    rewrite (Hlook "_names"), (Hres "_names"), (Hfree "_names")
      by (discriminate || listed).
    rewrite lookup_insert_eq. cbn [iterate].
    destruct (as_dict_loop_spec attrs kw.*1 {[ "userid" := PyArg userid ]})
      as (res2 & -> & Hres2).
    { intros n Hin.
      assert (Hne : n <> "verified").
      { intros ->. apply (Hk _ Hin). listed. }
      rewrite (Hlook n Hne), Hres.
      destruct (list_to_map kw !! n) as [v|] eqn:E; [eauto|].
      now apply not_elem_of_list_to_map_2 in E. }
    f_equal. apply map_eq. intros k. rewrite Hres2.
    destruct (decide (k ∈ kw.*1)) as [Hin|Hnin].
    + assert (Hne : k <> "verified").
      { intros ->. apply (Hk _ Hin). listed. }
      assert (Hnu : k <> "userid").
      { intros ->. apply (Hk _ Hin). listed. }
      rewrite (Hlook k Hne), Hres.
      rewrite (lookup_insert_ne (PyArg <$> list_to_map kw)) by congruence.
      rewrite lookup_fmap.
      destruct (list_to_map kw !! k) as [v|] eqn:E; [reflexivity|].
      now apply not_elem_of_list_to_map_2 in E.
    + apply not_elem_of_list_to_map_1 in Hnin.
      destruct (decide (k = "userid")) as [->|Hne].
      * now rewrite lookup_singleton_eq, lookup_insert_eq.
      * rewrite lookup_singleton_ne, lookup_insert_ne, lookup_fmap
          by congruence.
        now rewrite Hnin.
  - intros (k & Hin & Hr). unfold Identity_init.
    unfold refused_keywords in Hr. rewrite !elem_of_cons in Hr.
    destruct (bind_keywords kw) as [[]|e] eqn:Eb; [|eauto].
    destruct Hr as [->|[->|Hr]].
    + destruct (bind_keywords_refuses kw) as [e He]; [now left|congruence].
    + destruct (bind_keywords_refuses kw) as [e He]; [now right|congruence].
    + destruct (setattr_all_refuses kw
                  (<["_names" := PyKeys kw.*1]>
                     {[ "userid" := PyArg userid ]})) as [e ->]; [|eauto].
      destruct Hr as [->|[->|[->|Hr]]]; auto.
      now apply elem_of_nil in Hr.
Qed.

Lemma as_dict_of_init_witness :
  NoDup [("email", ArgStr "joe@example.com"); ("role", ArgNone)].*1 /\
  exists attrs,
    Identity_init (ArgStr "joe")
      [("email", ArgStr "joe@example.com"); ("role", ArgNone)]
    = Ok attrs /\
    attrs !! "verified" = Some (PyArg ArgNone) /\
    as_dict attrs
    = Ok (<["userid" := PyArg (ArgStr "joe")]>
            (PyArg <$> list_to_map
                         [("email", ArgStr "joe@example.com");
                          ("role", ArgNone)])).
Proof.
  assert (Hnd : NoDup [("email", ArgStr "joe@example.com");
                       ("role", ArgNone)].*1).
  { compute_done. }
  split; [exact Hnd|].
  apply (as_dict_of_init (ArgStr "joe")
           [("email", ArgStr "joe@example.com"); ("role", ArgNone)] Hnd).
  intros k Hk. simpl in Hk. rewrite !elem_of_cons in Hk.
  destruct Hk as [->|[->|Hk]]; [compute_done..|].
  now apply elem_of_nil in Hk.
Defined.

(** A keyword [verified] is overwritten, and a keyword [as_dict] makes
    [as_dict] fail. *)
Lemma as_dict_reserved_keywords :
  (exists attrs,
     Identity_init (ArgStr "joe") [("verified", ArgStr "yes")] = Ok attrs /\
     as_dict attrs
     = Ok (<["verified" := PyArg ArgNone]>
             {[ "userid" := PyArg (ArgStr "joe") ]})) /\
  (exists attrs e,
     Identity_init (ArgStr "joe") [("as_dict", ArgNone)] = Ok attrs /\
     as_dict attrs = Raise e).
Proof.
  split.
  - eexists. split; [reflexivity|]. vm_compute. reflexivity.
  - eexists _, _. split; [reflexivity|]. vm_compute. reflexivity.
Qed.

Section PolicyRegistryProperties.

Context {Policy Function Dispatch Settings : Type}.
Context (policy_getattr : option Policy -> string -> option Function).

Lemma register_all_keeps_policy
    (calls : list ((Settings -> option Policy) * Dispatch * string)) :
  forall (self : IdentityPolicyRegistry Policy Function Dispatch Settings)
         (p : Policy),
    identity_policy _ _ _ _ self = Some p ->
    let final := fst (register_all _ _ _ _ policy_getattr self calls) in
    identity_policy _ _ _ _ final = Some p /\
    forall d fn,
      (d, fn) ∈ registered _ _ _ _ final ->
      (d, fn) ∈ registered _ _ _ _ self \/
      exists f n, (f, d, n) ∈ calls /\ policy_getattr (Some p) n = Some fn.
Proof.
  induction calls as [|[[f d] n] rest IH]; intros self p Hp; simpl.
  - split; [exact Hp|]. intros d' fn Hin. now left.
  - unfold register_identity_policy_function. rewrite Hp.
    destruct (policy_getattr (Some p) n) as [fn0|] eqn:Hg; simpl.
    + destruct (IH (MkRegistry _ _ _ _ (setting_registry _ _ _ _ self)
                      (Some p)
                      (registered _ _ _ _ self ++ [(d, fn0)]))
                  p eq_refl) as [Hpol Hreg].
      split; [exact Hpol|]. intros d' fn Hin.
      destruct (Hreg d' fn Hin) as [Hold|(f' & n' & Hc & Hgf)].
      * simpl in Hold. apply elem_of_app in Hold as [Hold|Hnew].
        -- now left.
        -- apply list_elem_of_singleton in Hnew. injection Hnew as -> ->.
           right. exists f, n. split; [left|exact Hg].
      * right. exists f', n'. split; [now right|exact Hgf].
    + split; [reflexivity|]. intros d' fn Hin. now left.
Qed.

(** A registration leaves the settings, and sets the policy when the
    registry holds none. *)
Lemma register_sets_policy
    (self : IdentityPolicyRegistry Policy Function Dispatch Settings)
    (factory : Settings -> option Policy) (d : Dispatch) (n : string) :
  let self' :=
    fst (register_identity_policy_function _ _ _ _ policy_getattr self
           factory d n) in
  identity_policy _ _ _ _ self' =
  match identity_policy _ _ _ _ self with
  | Some p => Some p
  | None => factory (setting_registry _ _ _ _ self)
  end /\
  setting_registry _ _ _ _ self' = setting_registry _ _ _ _ self.
Proof.
  unfold register_identity_policy_function.
  destruct (policy_getattr _ n); split; reflexivity.
Qed.

(** X13.  Once a factory has returned an identity policy, which is
    not [None], that is the identity policy of the registry from then
    on, however many functions are registered and with whatever
    factories, and every function registered is a method of it.  A
    first factory that returns [None] leaves the registry without a
    policy, and the next registration takes the policy of its own
    factory. *)
Theorem single_identity_policy (settings : Settings)
    (factory : Settings -> option Policy) (dispatch : Dispatch)
    (name : string)
    (rest : list ((Settings -> option Policy) * Dispatch * string))
    (policy : Policy) :
  factory settings = Some policy ->
  let calls := (factory, dispatch, name) :: rest in
  let final :=
    fst (register_all _ _ _ _ policy_getattr (new_registry _ _ _ _ settings)
           calls) in
  (identity_policy _ _ _ _ final = Some policy /\
   forall d fn,
     (d, fn) ∈ registered _ _ _ _ final ->
     exists f n, (f, d, n) ∈ calls /\
                 policy_getattr (Some policy) n = Some fn) /\
  (forall (none : Settings -> option Policy) d0 n0,
     none settings = None ->
     let first :=
       fst (register_identity_policy_function _ _ _ _ policy_getattr
              (new_registry _ _ _ _ settings) none d0 n0) in
     identity_policy _ _ _ _ first = None /\
     identity_policy _ _ _ _
       (fst (register_identity_policy_function _ _ _ _ policy_getattr
               first factory dispatch name))
     = Some policy).
Proof.
  intros Hf calls final. split.
  - subst final calls. simpl.
    unfold register_identity_policy_function. simpl. rewrite Hf.
    destruct (policy_getattr (Some policy) name) as [fn0|] eqn:Hg; simpl.
    + destruct (register_all_keeps_policy rest
                  (MkRegistry _ _ _ _ settings (Some policy)
                     [(dispatch, fn0)])
                  policy eq_refl) as [Hpol Hreg].
      split; [exact Hpol|]. intros d fn Hin.
      destruct (Hreg d fn Hin) as [Hold|(f' & n' & Hc & Hgf)].
      * simpl in Hold. apply list_elem_of_singleton in Hold.
        injection Hold as -> ->. exists factory, name.
        split; [left|exact Hg].
      * exists f', n'. split; [now right|exact Hgf].
    + split; [reflexivity|]. intros d fn Hin. now apply elem_of_nil in Hin.
  - intros none d0 n0 Hnone first. subst first.
    destruct (register_sets_policy (new_registry _ _ _ _ settings) none d0 n0)
      as [Hp Hs].
    simpl in Hp, Hs. rewrite Hnone in Hp. split; [exact Hp|].
    destruct (register_sets_policy
                (fst (register_identity_policy_function _ _ _ _
                        policy_getattr (new_registry _ _ _ _ settings)
                        none d0 n0))
                factory dispatch name) as [Hp2 _].
    now rewrite Hp2, Hp, Hs.
Qed.

End PolicyRegistryProperties.

Lemma single_identity_policy_witness :
  let method_of (p : option string) (n : string) : option string :=
    match p with
    | Some "basic" =>
        if String.eqb n "identify" || String.eqb n "remember"
        then Some ("basic." +:+ n) else None
    | _ => None
    end in
  let final :=
    fst (register_all string string string unit method_of
           (new_registry _ _ _ _ tt)
           [(fun _ => Some "basic", "generic.identify", "identify");
            (fun _ => Some "other", "generic.remember", "remember")]) in
  identity_policy _ _ _ _ final = Some "basic" /\
  registered _ _ _ _ final
  = [("generic.identify", "basic.identify");
     ("generic.remember", "basic.remember")].
Proof.
  intros method_of final.
  destruct (single_identity_policy method_of tt (fun _ => Some "basic")
              "generic.identify" "identify"
              [(fun _ => Some "other", "generic.remember", "remember")]
              "basic" eq_refl) as [[Hpolicy _] _].
  split; [exact Hpolicy|reflexivity].
Defined.

(** ** Converters: decoding what was encoded *)

Import Converter.

Lemma string_of_uint_plain (u : Decimal.uint) :
  no_space_or_plus (NilEmpty.string_of_uint u) = true.
Proof. induction u; simpl; auto. Qed.

Lemma rstrip_plain (s : string) : no_space_or_plus s = true -> rstrip s = s.
Proof.
  induction s as [|c s IH]; simpl; [reflexivity|].
  intros H. apply andb_prop in H as [H Hs]. apply andb_prop in H as [Hc _].
  rewrite (IH Hs). destruct s; [|reflexivity].
  destruct (is_space c); [discriminate|reflexivity].
Qed.

Lemma lstrip_plain (s : string) : no_space_or_plus s = true -> lstrip s = s.
Proof.
  destruct s as [|c s]; simpl; [reflexivity|].
  intros H. apply andb_prop in H as [H _]. apply andb_prop in H as [Hc _].
  destruct (is_space c); [discriminate|reflexivity].
Qed.

Lemma py_str_plain (n : Z) : no_space_or_plus (py_str n) = true.
Proof.
  unfold py_str. destruct n as [|p|p]; simpl; [reflexivity| |].
  - pose proof (string_of_uint_plain (Pos.to_uint p)).
    destruct (Pos.to_uint p); auto.
  - pose proof (string_of_uint_plain (Pos.to_uint p)).
    destruct (Pos.to_uint p); auto.
Qed.

Lemma int_roundtrip (n : Z) : py_int (py_str n) = Some n.
Proof.
  pose proof (py_str_plain n) as Hd.
  unfold py_int, strip.
  rewrite (lstrip_plain _ Hd), (rstrip_plain _ Hd).
  assert (Hisi : NilZero.int_of_string (py_str n) = Some (Z.to_int n)).
  { unfold py_str. apply NilZero.isi.
    - destruct n; simpl; try discriminate.
      intros [= H]. now apply Unsigned.to_uint_nonnil in H.
    - destruct n; simpl; try discriminate.
      intros [= H]. now apply Unsigned.to_uint_nonnil in H. }
  destruct (py_str n) as [|c s] eqn:E.
  - rewrite Hisi. now rewrite DecimalZ.of_to.
  - assert (Hc : Ascii.eqb c "+" = false).
    { simpl in Hd. destruct (Ascii.eqb c "+"); [|reflexivity].
      now rewrite andb_false_r in Hd. }
    destruct c as [[] [] [] [] [] [] [] []]; try discriminate Hc;
      cbv beta iota; rewrite Hisi; now rewrite DecimalZ.of_to.
Qed.

Local Open Scope Z_scope.

Lemma days_in_year_pos y : 365 <= days_in_year y <= 366.
Proof. unfold days_in_year. destruct (is_leap y); lia. Qed.

Lemma days_before_year_succ y :
  days_before_year (y + 1) = days_before_year y + days_in_year y.
Proof.
  unfold days_before_year, days_in_year, is_leap.
  replace (y + 1 - 1) with (y - 1 + 1) by lia.
  destruct (Z.eqb_spec (y mod 4) 0), (Z.eqb_spec (y mod 100) 0),
    (Z.eqb_spec (y mod 400) 0); simpl; Z.to_euclidean_division_equations; lia.
Qed.

Lemma days_before_year_mono a b :
  a <= b -> days_before_year a <= days_before_year b.
Proof.
  intros H. unfold days_before_year.
  Z.to_euclidean_division_equations. lia.
Qed.

Lemma find_year_spec fuel :
  forall y0 y r,
    y0 <= y -> y - y0 <= Z.of_nat fuel -> 0 <= r < days_in_year y ->
    find_year fuel y0 (days_before_year y - days_before_year y0 + r) = (y, r).
Proof.
  induction fuel as [|fuel IH]; intros y0 y r Hle Hfuel Hr.
  - assert (y = y0) by lia. subst. simpl. f_equal. lia.
  - simpl. destruct (Z.eq_dec y0 y) as [->|Hne].
    + replace (days_before_year y - days_before_year y + r) with r by lia.
      destruct (Z.ltb_spec r (days_in_year y)); [reflexivity|lia].
    + pose proof (days_before_year_mono (y0 + 1) y ltac:(lia)) as Hm.
      rewrite days_before_year_succ in Hm.
      destruct (Z.ltb_spec (days_before_year y - days_before_year y0 + r)
                  (days_in_year y0)); [lia|].
      replace (days_before_year y - days_before_year y0 + r - days_in_year y0)
        with (days_before_year y - days_before_year (y0 + 1) + r)
        by (rewrite days_before_year_succ; lia).
      apply IH; lia.
Qed.

Lemma days_in_month_pos y m : 28 <= days_in_month y m <= 31.
Proof.
  unfold days_in_month.
  destruct (m =? 2), (is_leap y), ((m =? 4) || (m =? 6) || (m =? 9) || (m =? 11));
    lia.
Qed.

Lemma days_before_month_succ y m :
  1 <= m <= 11 ->
  days_before_month y (m + 1) = days_before_month y m + days_in_month y m.
Proof.
  intros Hm.
  assert (Hcases : m = 1 \/ m = 2 \/ m = 3 \/ m = 4 \/ m = 5 \/ m = 6 \/
                   m = 7 \/ m = 8 \/ m = 9 \/ m = 10 \/ m = 11) by lia.
  unfold days_before_month, days_in_month.
  destruct (is_leap y);
    repeat (destruct Hcases as [->|Hcases]; [reflexivity|]); subst m;
    reflexivity.
Qed.

Lemma days_before_month_mono y (k : nat) :
  forall m, 1 <= m -> m + Z.of_nat k <= 12 ->
    days_before_month y m <= days_before_month y (m + Z.of_nat k).
Proof.
  induction k as [|k IH]; intros m H1 H12.
  - replace (m + Z.of_nat 0) with m by lia. lia.
  - replace (m + Z.of_nat (S k)) with ((m + 1) + Z.of_nat k) by lia.
    specialize (IH (m + 1) ltac:(lia) ltac:(lia)).
    rewrite days_before_month_succ in IH by lia.
    pose proof (days_in_month_pos y m). lia.
Qed.

Lemma find_month_from fuel :
  forall y m0 m r,
    1 <= m0 <= m -> m <= 12 -> m - m0 <= Z.of_nat fuel ->
    0 <= r < days_in_month y m ->
    find_month fuel y m0 (days_before_month y m - days_before_month y m0 + r)
    = (m, r).
Proof.
  induction fuel as [|fuel IH]; intros y m0 m r Hle H12 Hfuel Hr.
  - assert (m = m0) by lia. subst. simpl. f_equal. lia.
  - simpl. destruct (Z.eq_dec m0 m) as [->|Hne].
    + replace (days_before_month y m - days_before_month y m + r) with r by lia.
      destruct (Z.ltb_spec r (days_in_month y m)); [reflexivity|lia].
    + pose proof (days_before_month_mono y (Z.to_nat (m - (m0 + 1))) (m0 + 1)
                    ltac:(lia) ltac:(lia)) as Hm.
      replace (m0 + 1 + Z.of_nat (Z.to_nat (m - (m0 + 1)))) with m in Hm by lia.
      rewrite days_before_month_succ in Hm by lia.
      destruct (Z.ltb_spec
                  (days_before_month y m - days_before_month y m0 + r)
                  (days_in_month y m0)); [lia|].
      replace (days_before_month y m - days_before_month y m0 + r
               - days_in_month y m0)
        with (days_before_month y m - days_before_month y (m0 + 1) + r)
        by (rewrite days_before_month_succ by lia; lia).
      apply IH; lia.
Qed.

Lemma days_before_year_1 : days_before_year 1 = 0.
Proof. reflexivity. Qed.

Lemma days_before_month_1 y : days_before_month y 1 = 0.
Proof. reflexivity. Qed.

Lemma ord2ymd_ymd2ord y m d :
  valid_ymd y m d = true -> ord2ymd (ymd2ord y m d) = Some (y, m, d).
Proof.
  unfold valid_ymd. intros H.
  repeat (apply andb_prop in H as [H ?]).
  assert (Hy : 1 <= y <= 9999) by lia.
  assert (Hm : 1 <= m <= 12) by lia.
  assert (Hd : 1 <= d <= days_in_month y m) by lia.
  clear H H0 H1 H2 H3 H4.
  unfold ord2ymd, ymd2ord.
  pose proof (days_before_year_mono 1 y ltac:(lia)) as Hy0.
  rewrite days_before_year_1 in Hy0.
  pose proof (days_before_month_mono y (Z.to_nat (m - 1)) 1 ltac:(lia) ltac:(lia))
    as Hm0.
  replace (1 + Z.of_nat (Z.to_nat (m - 1))) with m in Hm0 by lia.
  rewrite days_before_month_1 in Hm0.
  destruct (Z.ltb_spec (days_before_year y + days_before_month y m + d) 1);
    [lia|].
  assert (Hdoy : days_before_month y m + d - 1 < days_in_year y).
  { destruct (Z.eq_dec m 12) as [->|Hne].
    - unfold days_before_month, days_in_month, days_in_year in *.
      destruct (is_leap y); simpl in *; lia.
    - pose proof (days_before_month_mono y (Z.to_nat (12 - (m + 1))) (m + 1)
                    ltac:(lia) ltac:(lia)) as Hm1.
      replace (m + 1 + Z.of_nat (Z.to_nat (12 - (m + 1)))) with 12 in Hm1 by lia.
      rewrite days_before_month_succ in Hm1 by lia.
      unfold days_before_month at 2 in Hm1. unfold days_in_year.
      destruct (is_leap y); simpl in Hm1; lia. }
  replace (days_before_year y + days_before_month y m + d - 1)
    with (days_before_year y - days_before_year 1
          + (days_before_month y m + d - 1))
    by (rewrite days_before_year_1; lia).
  rewrite (find_year_spec (Z.to_nat 9999) 1 y) by lia.
  destruct (Z.ltb_spec 9999 y); [lia|].
  replace (days_before_month y m + d - 1)
    with (days_before_month y m - days_before_month y 1 + (d - 1))
    by (rewrite days_before_month_1; lia).
  rewrite (find_month_from 11 y 1 m (d - 1)) by lia.
  f_equal. f_equal. lia.
Qed.
Lemma digit_val_digit_char k :
  0 <= k <= 9 -> digit_val (digit_char k) = Some k.
Proof.
  intros H.
  assert (Hc : k = 0 \/ k = 1 \/ k = 2 \/ k = 3 \/ k = 4 \/ k = 5 \/ k = 6 \/
               k = 7 \/ k = 8 \/ k = 9) by lia.
  repeat (destruct Hc as [->|Hc]; [reflexivity|]). subst. reflexivity.
Qed.

Lemma one_digit_digit_char lo hi k r :
  0 <= k <= 9 ->
  one_digit lo hi (String (digit_char k) r) =
  if in_range lo hi k then [(k, r)] else [].
Proof. intros H. unfold one_digit. now rewrite digit_val_digit_char. Qed.

Lemma two_digits_digit_chars lo1 hi1 lo2 hi2 a b r :
  0 <= a <= 9 -> 0 <= b <= 9 ->
  two_digits lo1 hi1 lo2 hi2 (String (digit_char a) (String (digit_char b) r)) =
  if in_range lo1 hi1 a && in_range lo2 hi2 b then [(10 * a + b, r)] else [].
Proof.
  intros Ha Hb. unfold two_digits.
  rewrite one_digit_digit_char by lia.
  destruct (in_range lo1 hi1 a); cbn [flat_map andb]; [|reflexivity].
  rewrite one_digit_digit_char by lia.
  destruct (in_range lo2 hi2 b); reflexivity.
Qed.

Lemma two_digits_pad2 lo1 hi1 lo2 hi2 n r :
  0 <= n <= 99 ->
  two_digits lo1 hi1 lo2 hi2 (pad2 n +:+ r) =
  if in_range lo1 hi1 (n / 10) && in_range lo2 hi2 (n mod 10)
  then [(n, r)] else [].
Proof.
  intros H.
  change (pad2 n +:+ r)
    with (String (digit_char (n / 10)) (String (digit_char (n mod 10)) r)).
  rewrite two_digits_digit_chars by (Z.to_euclidean_division_equations; lia).
  replace (10 * (n / 10) + n mod 10) with n
    by (Z.to_euclidean_division_equations; lia).
  reflexivity.
Qed.

Lemma one_digit_pad2 lo hi n r :
  0 <= n <= 99 ->
  one_digit lo hi (pad2 n +:+ r) =
  if in_range lo hi (n / 10)
  then [(n / 10, String (digit_char (n mod 10)) r)] else [].
Proof.
  intros H.
  change (pad2 n +:+ r)
    with (String (digit_char (n / 10)) (String (digit_char (n mod 10)) r)).
  now rewrite one_digit_digit_char by (Z.to_euclidean_division_equations; lia).
Qed.

Lemma re_Y_pad4 y r : 0 <= y <= 9999 -> re_Y (pad4 y +:+ r) = [(y, r)].
Proof.
  intros H. unfold re_Y.
  change (pad4 y +:+ r)
    with (String (digit_char (y / 1000))
            (String (digit_char (y / 100 mod 10)) (pad2 (y mod 100) +:+ r))).
  rewrite two_digits_digit_chars by (Z.to_euclidean_division_equations; lia).
  replace (in_range 0 9 (y / 1000) && in_range 0 9 (y / 100 mod 10)) with true
    by (unfold in_range; Z.to_euclidean_division_equations; lia).
  cbn [flat_map].
  rewrite two_digits_pad2 by (Z.to_euclidean_division_equations; lia).
  replace (in_range 0 9 (y mod 100 / 10) && in_range 0 9 ((y mod 100) mod 10))
    with true by (unfold in_range; Z.to_euclidean_division_equations; lia).
  cbn [map app]. do 2 f_equal. Z.to_euclidean_division_equations; lia.
Qed.

(** Case analysis on a number between 0 and a bound: the goal is
    checked by evaluation for each value. *)
Ltac by_enumeration x bound :=
  let n := fresh "n" in
  let Hn := fresh "Hn" in
  let E := fresh "E" in
  remember (Z.to_nat x) as n eqn:E;
  assert (Hn : (n <= bound)%nat) by lia;
  replace x with (Z.of_nat n) in * by lia;
  clear E;
  repeat (destruct n as [|n];
          [solve [reflexivity | exfalso; lia] | try (exfalso; lia)]).

Lemma re_m_pad2 m r : 1 <= m <= 12 -> head (re_m (pad2 m +:+ r)) = Some (m, r).
Proof. intros H. by_enumeration m 12%nat. Qed.

Lemma re_d_pad2 d r : 1 <= d <= 31 -> head (re_d (pad2 d +:+ r)) = Some (d, r).
Proof. intros H. by_enumeration d 31%nat. Qed.

Lemma re_H_pad2 h r : 0 <= h <= 23 -> head (re_H (pad2 h +:+ r)) = Some (h, r).
Proof. intros H. by_enumeration h 23%nat. Qed.

Lemma re_M_pad2 m r : 0 <= m <= 59 -> head (re_M (pad2 m +:+ r)) = Some (m, r).
Proof. intros H. by_enumeration m 59%nat. Qed.

Lemma re_S_pad2 s r : 0 <= s <= 59 -> head (re_S (pad2 s +:+ r)) = Some (s, r).
Proof. intros H. by_enumeration s 59%nat. Qed.

Lemma then_head {A B : Type} (p : Matcher A) (q : A -> Matcher B) s a r x :
  head (p s) = Some (a, r) -> head (q a r) = Some x ->
  head (then_ p q s) = Some x.
Proof.
  unfold then_. destruct (p s) as [|[a' r'] tl]; [discriminate|].
  intros [= -> ->]. simpl. destruct (q a r); [discriminate|].
  intros [= ->]. reflexivity.
Qed.

Lemma finish_head ms tm :
  head ms = Some (tm, "") ->
  valid_ymd (tm_year tm) (tm_mon tm) (tm_mday tm) = true ->
  finish ms = Some tm.
Proof.
  destruct ms as [|[tm' rest] tl]; [discriminate|]. intros [= -> ->] Hv.
  simpl. now rewrite Hv.
Qed.

Lemma pad2_append_empty n : pad2 n = pad2 n +:+ "".
Proof. reflexivity. Qed.

Lemma format_year_four_digits zero_pad_year y :
  zero_pad_year = true \/ 1000 <= y ->
  format_year zero_pad_year y = pad4 y.
Proof.
  intros [->|Hy]; [reflexivity|]. unfold format_year, unpadded.
  destruct zero_pad_year; [reflexivity|].
  destruct (Z.ltb_spec y 10); [lia|].
  destruct (Z.ltb_spec y 100); [lia|].
  destruct (Z.ltb_spec y 1000); [lia|reflexivity].
Qed.

Lemma strptime_strftime_date zero_pad_year d :
  valid_date d = true ->
  zero_pad_year = true \/ 1000 <= year d ->
  strptime_date (strftime_date zero_pad_year d) =
  Some (MkTm (year d) (month d) (day d) 0 0 0).
Proof.
  intros Hv Hpad. unfold strptime_date, strftime_date.
  rewrite (format_year_four_digits _ _ Hpad).
  pose proof Hv as Hv'. unfold valid_date, valid_ymd in Hv'.
  repeat (apply andb_prop in Hv' as [Hv' ?]).
  pose proof (days_in_month_pos (year d) (month d)).
  apply finish_head; [|exact Hv].
  eapply then_head; [rewrite re_Y_pad4 by lia; reflexivity|].
  eapply then_head; [apply re_m_pad2; lia|].
  eapply then_head.
  - rewrite pad2_append_empty. apply re_d_pad2. lia.
  - reflexivity.
Qed.

Lemma valid_ymd_bounds y m d :
  valid_ymd y m d = true ->
  1 <= y <= 9999 /\ 1 <= m <= 12 /\ 1 <= d <= days_in_month y m.
Proof.
  unfold valid_ymd. intros H. repeat (apply andb_prop in H as [H ?]). lia.
Qed.

Lemma valid_datetime_bounds d :
  valid_datetime d = true ->
  valid_ymd (dt_year d) (dt_month d) (dt_day d) = true /\
  0 <= hour d <= 23 /\ 0 <= minute d <= 59 /\ 0 <= second d <= 59 /\
  0 <= microsecond d <= 999999.
Proof.
  unfold valid_datetime. intros H.
  do 8 (apply andb_prop in H as [H ?]). split; [exact H|lia].
Qed.

Lemma strptime_strftime_datetime zero_pad_year d :
  valid_datetime d = true ->
  zero_pad_year = true \/ 1000 <= dt_year d ->
  strptime_datetime (strftime_datetime zero_pad_year d) =
  Some (MkTm (dt_year d) (dt_month d) (dt_day d) (hour d) (minute d) (second d)).
Proof.
  intros Hv Hpad. unfold strptime_datetime, strftime_datetime.
  rewrite (format_year_four_digits _ _ Hpad).
  destruct (valid_datetime_bounds d Hv) as (Hymd & Hh & Hm & Hs & _).
  destruct (valid_ymd_bounds _ _ _ Hymd) as (Hy & Hmo & Hd).
  pose proof (days_in_month_pos (dt_year d) (dt_month d)).
  apply finish_head; [|exact Hymd].
  eapply then_head; [rewrite re_Y_pad4 by lia; reflexivity|].
  eapply then_head; [apply re_m_pad2; lia|].
  eapply then_head; [apply re_d_pad2; lia|].
  eapply then_head; [reflexivity|].
  eapply then_head; [apply re_H_pad2; lia|].
  eapply then_head; [apply re_M_pad2; lia|].
  eapply then_head.
  - rewrite pad2_append_empty. apply re_S_pad2. lia.
  - reflexivity.
Qed.

Lemma find_year_bounds fuel :
  forall y n y' r,
    0 <= n -> find_year fuel y n = (y', r) ->
    y <= y' <= y + Z.of_nat fuel /\ 0 <= r /\
    n = days_before_year y' - days_before_year y + r /\
    (y' < y + Z.of_nat fuel -> r < days_in_year y').
Proof.
  induction fuel as [|fuel IH]; intros y n y' r Hn H.
  - simpl in H. injection H as <- <-. repeat split; lia.
  - cbn [find_year] in H.
    destruct (n <? days_in_year y) eqn:E.
    + injection H as <- <-. apply Z.ltb_lt in E. repeat split; lia.
    + apply Z.ltb_ge in E. apply IH in H; [|lia].
      destruct H as (Hy & Hr & Hn' & Hlt).
      rewrite days_before_year_succ in Hn'.
      repeat split; try lia.
Qed.

Lemma find_month_bounds fuel :
  forall y m n m' r,
    0 <= n -> 1 <= m -> m + Z.of_nat fuel <= 12 ->
    find_month fuel y m n = (m', r) ->
    m <= m' <= m + Z.of_nat fuel /\ 0 <= r /\
    n = days_before_month y m' - days_before_month y m + r /\
    (m' < m + Z.of_nat fuel -> r < days_in_month y m').
Proof.
  induction fuel as [|fuel IH]; intros y m n m' r Hn Hm Hf H.
  - simpl in H. injection H as <- <-. repeat split; lia.
  - cbn [find_month] in H.
    destruct (n <? days_in_month y m) eqn:E.
    + injection H as <- <-. apply Z.ltb_lt in E. repeat split; lia.
    + apply Z.ltb_ge in E. apply IH in H; [|lia..].
      destruct H as (Hy & Hr & Hn' & Hlt).
      rewrite days_before_month_succ in Hn' by lia.
      repeat split; try lia.
Qed.

Lemma december y :
  days_in_year y - days_before_month y 12 = days_in_month y 12 /\
  days_before_month y 1 = 0.
Proof.
  unfold days_in_year, days_before_month, days_in_month.
  change (12 <=? 1) with false. change (1 <=? 1) with true.
  change (12 =? 2) with false. cbv beta iota.
  destruct (is_leap y); split; reflexivity.
Qed.

(** The date of a day number is a date of the calendar, and the day
    number of that date is the number. *)
Lemma ymd2ord_ord2ymd n y m d :
  ord2ymd n = Some (y, m, d) ->
  valid_ymd y m d = true /\ ymd2ord y m d = n.
Proof.
  unfold ord2ymd. destruct (n <? 1) eqn:En; [discriminate|].
  apply Z.ltb_ge in En.
  destruct (find_year (Z.to_nat 9999) 1 (n - 1)) as [y' r] eqn:Ey.
  destruct (9999 <? y') eqn:E9; [discriminate|]. apply Z.ltb_ge in E9.
  destruct (find_month 11 y' 1 r) as [m' r'] eqn:Em.
  intros [= <- <- <-].
  apply find_year_bounds in Ey; [|lia].
  destruct Ey as (Hy & Hr & Hn & Hlt).
  rewrite Z2Nat.id in Hy, Hlt by lia. specialize (Hlt ltac:(lia)).
  apply find_month_bounds in Em; [|lia..].
  destruct Em as (Hm & Hr' & Hrn & Hmlt).
  change (Z.of_nat 11) with 11 in *.
  destruct (december y') as [Hdec Hjan]. rewrite Hjan in Hrn.
  assert (Hday : r' < days_in_month y' m').
  { destruct (Z.eq_dec m' 12) as [->|Hne]; [lia|]. apply Hmlt. lia. }
  split.
  - unfold valid_ymd. repeat (apply andb_true_intro; split);
      apply Z.leb_le; lia.
  - unfold ymd2ord. change (days_before_year 1) with 0 in Hn. lia.
Qed.

Lemma then_Forall {A B : Type} (P : B * string -> Prop)
    (p : Matcher A) (q : A -> Matcher B) (s : string) :
  (forall a r, Forall P (q a r)) -> Forall P (then_ p q s).
Proof.
  intros H. unfold then_. induction (p s) as [|[a r] l IH]; simpl.
  - constructor.
  - apply Forall_app. split; [apply H|exact IH].
Qed.

Lemma finish_Some (ms : list (struct_time * string)) (tm : struct_time)
    (P : struct_time * string -> Prop) :
  Forall P ms -> finish ms = Some tm ->
  P (tm, "") /\ valid_ymd (tm_year tm) (tm_mon tm) (tm_mday tm) = true.
Proof.
  intros HP. unfold finish. destruct ms as [|[tm' rest] ms]; [discriminate|].
  destruct rest; [|discriminate].
  destruct (valid_ymd _ _ _) eqn:E; [|discriminate].
  intros [= <-]. split; [|exact E]. now inversion HP.
Qed.

(** A text that [strptime] reads as a date names a day of the
    calendar, at midnight. *)
Lemma strptime_date_midnight s tm :
  strptime_date s = Some tm ->
  valid_ymd (tm_year tm) (tm_mon tm) (tm_mday tm) = true /\
  tm_hour tm = 0 /\ tm_min tm = 0 /\ tm_sec tm = 0.
Proof.
  intros H. unfold strptime_date in H.
  apply (finish_Some _ _
           (fun p => tm_hour (fst p) = 0 /\ tm_min (fst p) = 0 /\
                     tm_sec (fst p) = 0)) in H.
  - destruct H as [H Hv]. simpl in H. tauto.
  - apply then_Forall. intros y r. apply then_Forall. intros m r'.
    apply then_Forall. intros d r''. constructor; [|constructor].
    simpl. auto.
Qed.

(** The day numbers below the day number of a date are day numbers
    of dates. *)
Lemma ord2ymd_below n k ymd :
  ord2ymd n = Some ymd -> 1 <= k <= n -> exists ymd', ord2ymd k = Some ymd'.
Proof.
  unfold ord2ymd. destruct (n <? 1); [discriminate|].
  destruct (find_year (Z.to_nat 9999) 1 (n - 1)) as [y r] eqn:Ey.
  destruct (9999 <? y) eqn:E9; [discriminate|]. apply Z.ltb_ge in E9.
  intros _ Hk.
  apply find_year_bounds in Ey; [|lia].
  destruct Ey as (Hy & Hr & Hn & Hlt).
  rewrite Z2Nat.id in Hy, Hlt by lia. specialize (Hlt ltac:(lia)).
  pose proof (days_before_year_succ y) as Hs.
  pose proof (days_before_year_mono (y + 1) 10000 ltac:(lia)) as Hm.
  destruct (k <? 1) eqn:Ek; [apply Z.ltb_lt in Ek; lia|].
  destruct (find_year (Z.to_nat 9999) 1 (k - 1)) as [y' r'] eqn:Ey'.
  apply find_year_bounds in Ey'; [|lia].
  destruct Ey' as (Hy' & Hr' & Hk' & _).
  rewrite Z2Nat.id in Hy' by lia.
  assert (Hy9 : y' <= 9999).
  { destruct (Z_le_gt_dec y' 9999) as [Hle|Hgt]; [exact Hle|].
    pose proof (days_before_year_mono 10000 y' ltac:(lia)). lia. }
  apply Z.ltb_ge in Hy9. rewrite Hy9.
  destruct (find_month 11 y' 1 r'). eauto.
Qed.

Lemma ymd2ord_after_first_day y m d :
  valid_ymd y m d = true -> MkDate y m d <> MkDate 1 1 1 ->
  2 <= ymd2ord y m d.
Proof.
  intros Hv Hne. apply valid_ymd_bounds in Hv as (Hy & Hm & Hd).
  unfold ymd2ord.
  pose proof (days_before_year_mono 1 y ltac:(lia)) as H1.
  rewrite days_before_year_1 in H1.
  pose proof (days_before_month_mono y (Z.to_nat (m - 1)) 1 ltac:(lia)) as H2.
  rewrite Z2Nat.id in H2 by lia. specialize (H2 ltac:(lia)).
  rewrite days_before_month_1 in H2. replace (1 + (m - 1)) with m in H2 by lia.
  destruct (Z.eq_dec y 1) as [->|Hy1].
  - destruct (Z.eq_dec m 1) as [->|Hm1].
    + destruct (Z.eq_dec d 1) as [->|Hd1]; [now destruct Hne|lia].
    + pose proof (days_before_month_mono 1 (Z.to_nat (m - 2)) 2 ltac:(lia))
        as H3.
      rewrite Z2Nat.id in H3 by lia. specialize (H3 ltac:(lia)).
      replace (2 + (m - 2)) with m in H3 by lia.
      change (days_before_month 1 2) with 31 in H3. lia.
  - pose proof (days_before_year_mono 2 y ltac:(lia)) as H3.
    change (days_before_year 2) with 365 in H3. lia.
Qed.

Section LocalTimeProperties.

Context (zero_pad_year : bool) (utcoffset : Z) (probes_fold : bool).

Lemma localtime_mktime tm :
  valid_ymd (tm_year tm) (tm_mon tm) (tm_mday tm) = true ->
  0 <= tm_hour tm <= 23 -> 0 <= tm_min tm <= 59 -> 0 <= tm_sec tm <= 59 ->
  localtime utcoffset (mktime utcoffset tm) = Some tm.
Proof.
  intros Hv Hh Hm Hs. unfold localtime, mktime.
  destruct tm as [y m d h mi s].
  cbn [tm_year tm_mon tm_mday tm_hour tm_min tm_sec] in *.
  set (o := ymd2ord y m d) in *.
  replace ((o - epoch_ord) * 86400 + h * 3600 + mi * 60 + s
           - utcoffset + utcoffset)
    with ((h * 3600 + mi * 60 + s) + (o - epoch_ord) * 86400) by lia.
  rewrite Z.div_add, Z.mod_add by lia.
  rewrite (Z.div_small (h * 3600 + mi * 60 + s)) by lia.
  rewrite (Z.mod_small (h * 3600 + mi * 60 + s)) by lia.
  replace (0 + (o - epoch_ord) + epoch_ord) with o by lia.
  unfold o. rewrite (ord2ymd_ymd2ord y m d Hv).
  f_equal. f_equal; Z.to_euclidean_division_equations; lia.
Qed.

(** The local time 24 hours before a time that is not on the first
    day of the calendar is a time of the calendar. *)
Lemma localtime_day_before tm :
  valid_ymd (tm_year tm) (tm_mon tm) (tm_mday tm) = true ->
  0 <= tm_hour tm <= 23 -> 0 <= tm_min tm <= 59 -> 0 <= tm_sec tm <= 59 ->
  MkDate (tm_year tm) (tm_mon tm) (tm_mday tm) <> MkDate 1 1 1 ->
  exists tm', localtime utcoffset (mktime utcoffset tm - 86400) = Some tm'.
Proof.
  intros Hv Hh Hm Hs Hne. unfold localtime, mktime.
  destruct tm as [y m d h mi s].
  cbn [tm_year tm_mon tm_mday tm_hour tm_min tm_sec] in *.
  pose proof (ymd2ord_after_first_day y m d Hv Hne) as Ho.
  pose proof (ord2ymd_ymd2ord y m d Hv) as Hsome.
  set (o := ymd2ord y m d) in *.
  replace ((o - epoch_ord) * 86400 + h * 3600 + mi * 60 + s
           - utcoffset - 86400 + utcoffset)
    with ((h * 3600 + mi * 60 + s) + (o - 1 - epoch_ord) * 86400) by lia.
  rewrite Z.div_add by lia.
  rewrite (Z.div_small (h * 3600 + mi * 60 + s)) by lia.
  replace (0 + (o - 1 - epoch_ord) + epoch_ord) with (o - 1) by lia.
  destruct (ord2ymd_below o (o - 1) _ Hsome ltac:(lia)) as [[[y' m'] d'] ->].
  eauto.
Qed.

Lemma date_roundtrip d :
  valid_date d = true ->
  zero_pad_year = true \/ 1000 <= year d ->
  date_decode utcoffset (date_encode zero_pad_year d) = Some d.
Proof.
  intros Hv Hpad. unfold date_decode, date_encode.
  rewrite (strptime_strftime_date zero_pad_year d Hv Hpad).
  unfold date_fromtimestamp.
  rewrite localtime_mktime; cbn [tm_year tm_mon tm_mday tm_hour tm_min tm_sec];
    try lia; [|exact Hv].
  now destruct d.
Qed.

Lemma datetime_roundtrip d :
  valid_datetime d = true -> microsecond d = 0 ->
  zero_pad_year = true \/ 1000 <= dt_year d ->
  probes_fold = false \/
  MkDate (dt_year d) (dt_month d) (dt_day d) <> MkDate 1 1 1 ->
  datetime_decode utcoffset probes_fold (datetime_encode zero_pad_year d)
  = Some d.
Proof.
  intros Hv Hus Hpad Hfirst. unfold datetime_decode, datetime_encode.
  rewrite (strptime_strftime_datetime zero_pad_year d Hv Hpad).
  unfold datetime_fromtimestamp.
  destruct (valid_datetime_bounds d Hv) as (Hymd & Hh & Hm & Hs & _).
  rewrite localtime_mktime; cbn [tm_year tm_mon tm_mday tm_hour tm_min tm_sec];
    try lia; [|exact Hymd].
  assert (Hd : Some (MkDatetime (dt_year d) (dt_month d) (dt_day d)
                       (hour d) (minute d) (second d) 0) = Some d).
  { destruct d. cbn in *. now subst. }
  destruct probes_fold; [|exact Hd].
  destruct Hfirst as [Hf|Hne]; [discriminate|].
  destruct (localtime_day_before
              (MkTm (dt_year d) (dt_month d) (dt_day d)
                 (hour d) (minute d) (second d)))
    as [tm' ->];
    cbn [tm_year tm_mon tm_mday tm_hour tm_min tm_sec];
    try lia; assumption.
Qed.


End LocalTimeProperties.

(** Text that is not a date is not decoded. *)
Example date_decode_rejects :
  date_decode 0 "2014-02-28" = None /\ date_decode 0 "20140230" = None /\
  py_int "12a" = None.
Proof. repeat split. Qed.



(** Where [datetime.fromtimestamp] looks 24 hours back, a timestamp on
    the first day of the calendar is not decoded: the time looked at
    is in the year 0.  The date of that day is decoded. *)
Lemma first_day_not_decoded :
  valid_datetime (MkDatetime 1 1 1 12 0 0 0) = true /\
  encode (datetime_converter true 0 true) (MkDatetime 1 1 1 12 0 0 0)
  = "00010101T120000" /\
  decode (datetime_converter true 0 true) "00010101T120000" = None /\
  decode (datetime_converter true 0 false) "00010101T120000"
  = Some (MkDatetime 1 1 1 12 0 0 0) /\
  decode (date_converter true 0) "00010101" = Some (MkDate 1 1 1).
Proof. repeat split; vm_compute; reflexivity. Qed.

(** Where [strftime] does not pad the year, a date before the year
    1000 is encoded with fewer digits and decoded as another date. *)
Lemma unpadded_year_decodes_differently :
  encode (date_converter false 0) (MkDate 999 1 1) = "9990101" /\
  decode (date_converter false 0) "9990101" = Some (MkDate 9990 10 1).
Proof. split; [reflexivity|vm_compute; reflexivity]. Qed.

(** ** Converters: what decoding returns *)

Section DecodeProperties.

Context (zero_pad_year : bool) (utcoffset : Z) (probes_fold : bool).

(** A local time is a time of the calendar, and [mktime] gives back
    the seconds it was taken from. *)
Lemma mktime_localtime t tm :
  localtime utcoffset t = Some tm ->
  valid_ymd (tm_year tm) (tm_mon tm) (tm_mday tm) = true /\
  0 <= tm_hour tm <= 23 /\ 0 <= tm_min tm <= 59 /\ 0 <= tm_sec tm <= 59 /\
  mktime utcoffset tm = t.
Proof.
  unfold localtime.
  destruct (ord2ymd ((t + utcoffset) / 86400 + epoch_ord))
    as [[[y m] d]|] eqn:E; [|discriminate].
  intros [= <-]. apply ymd2ord_ord2ymd in E as [Hv Ho].
  unfold mktime. cbn [tm_year tm_mon tm_mday tm_hour tm_min tm_sec].
  rewrite Ho. split; [exact Hv|].
  Z.to_euclidean_division_equations. lia.
Qed.

(** X14.  Whatever text it is given, [date_decode] returns nothing or a date
    of the calendar: the one the text names, the time zone having no
    part in it.  The date returned is decoded from its encoding
    again, where [strftime] writes its year with four digits. *)
Theorem date_decode_sound (s : string) (d : date) :
  date_decode utcoffset s = Some d ->
  valid_date d = true /\
  strptime_date s = Some (MkTm (year d) (month d) (day d) 0 0 0) /\
  (zero_pad_year = true \/ 1000 <= year d ->
   date_decode utcoffset (date_encode zero_pad_year d) = Some d).
Proof.
  unfold date_decode at 1.
  destruct (strptime_date s) as [tm|] eqn:Es; [|discriminate].
  destruct (strptime_date_midnight s tm Es) as (Hv & Hh & Hm & Hs).
  unfold date_fromtimestamp.
  rewrite (localtime_mktime utcoffset tm Hv) by lia.
  intros [= <-]. cbn [year month day].
  split; [exact Hv|]. split.
  - destruct tm; simpl in *; congruence.
  - intros Hpad. now apply date_roundtrip.
Qed.


End DecodeProperties.

(** [strptime] reads the seconds 60 and 61; [mktime] carries them
    over into the next minute, and past the last day of the calendar
    nothing is returned. *)
Lemma datetime_decode_leap_second :
  datetime_decode 0 true "20200101T235960"
  = Some (MkDatetime 2020 1 2 0 0 0 0) /\
  datetime_decode 0 true "99991231T235960" = None.
Proof. split; vm_compute; reflexivity. Qed.

Lemma date_decode_sound_witness :
  date_decode 3600 "20200229" = Some (MkDate 2020 2 29) /\
  valid_date (MkDate 2020 2 29) = true /\
  strptime_date "20200229" = Some (MkTm 2020 2 29 0 0 0) /\
  (false = true \/ 1000 <= 2020 ->
   date_decode 3600 (date_encode false (MkDate 2020 2 29))
   = Some (MkDate 2020 2 29)).
Proof.
  assert (H : date_decode 3600 "20200229" = Some (MkDate 2020 2 29))
    by (vm_compute; reflexivity).
  split; [exact H|].
  exact (date_decode_sound false 3600 "20200229" (MkDate 2020 2 29) H).
Defined.

